(** * HAR timeline: request normalisation and zoom-to-fit

    A shallow embedding of [js/custom/charts.js]: the transformation of a
    HAR capture into timeline items ([getRequestsFromHar]) and the
    computation of the zoom transform ([zoomToElements]).  The source file
    carries two revisions of the script; the parts on which they differ
    live in the modules [Rev1] (first-party flags computed after the fact)
    and [Rev2] (tag rules that are regular expressions or functions). *)

From Stdlib Require Import QArith Qround Lqa Lia ZArith Ascii.
From stdpp Require Import gmap strings list fin_maps pretty.

Set Default Proof Using "Type".

(** ** JavaScript numbers

    A JavaScript number is kept as one of its three non-finite values or
    as a finite value.  Finite values are exact rationals: the model has
    no rounding and no overflow, and a single zero that behaves as [+0].
    Every operation returns its finite results in lowest terms, so that
    results can be compared with Leibniz equality. *)

Inductive number : Type :=
  | NaN : number
  | Infinity (negative : bool) : number
  | Fin (q : Q) : number.

Module Num.

Definition zero : number := Fin 0%Q.
Definition one : number := Fin 1%Q.
Definition of_Z (z : Z) : number := Fin (inject_Z z).
Definition of_nat (n : nat) : number := of_Z (Z.of_nat n).

Definition Qneg (q : Q) : bool :=
  match (q ?= 0)%Q with Lt => true | _ => false end.

Definition Qzero (q : Q) : bool :=
  match (q ?= 0)%Q with Eq => true | _ => false end.

Definition opp (a : number) : number :=
  match a with
  | NaN => NaN
  | Infinity s => Infinity (negb s)
  | Fin q => Fin (Qred (- q)%Q)
  end.

(** [a + b] *)
Definition add (a b : number) : number :=
  match a, b with
  | NaN, _ | _, NaN => NaN
  | Infinity s, Infinity t => if Bool.eqb s t then Infinity s else NaN
  | Infinity s, Fin _ | Fin _, Infinity s => Infinity s
  | Fin p, Fin q => Fin (Qred (p + q)%Q)
  end.

(** [a - b] *)
Definition sub (a b : number) : number := add a (opp b).

(** [a * b] *)
Definition mul (a b : number) : number :=
  match a, b with
  | NaN, _ | _, NaN => NaN
  | Infinity s, Infinity t => Infinity (xorb s t)
  | Infinity s, Fin q | Fin q, Infinity s =>
      if Qzero q then NaN else Infinity (xorb s (Qneg q))
  | Fin p, Fin q => Fin (Qred (p * q)%Q)
  end.

(** [a / b] *)
Definition div (a b : number) : number :=
  match a, b with
  | NaN, _ | _, NaN => NaN
  | Infinity _, Infinity _ => NaN
  | Infinity s, Fin q => Infinity (xorb s (Qneg q))
  | Fin _, Infinity _ => Fin 0%Q
  | Fin p, Fin q =>
      if Qzero q then (if Qzero p then NaN else Infinity (Qneg p))
      else Fin (Qred (p / q)%Q)
  end.

(** [a < b]; every comparison with [NaN] is false. *)
Definition lt (a b : number) : bool :=
  match a, b with
  | NaN, _ | _, NaN => false
  | Infinity s, Infinity t => s && negb t
  | Infinity s, Fin _ => s
  | Fin _, Infinity t => negb t
  | Fin p, Fin q => match (p ?= q)%Q with Lt => true | _ => false end
  end.

(** [a <= b] *)
Definition le (a b : number) : bool :=
  match a, b with
  | NaN, _ | _, NaN => false
  | Infinity s, Infinity t => s || negb t
  | Infinity s, Fin _ => s
  | Fin _, Infinity t => negb t
  | Fin p, Fin q => match (p ?= q)%Q with Gt => false | _ => true end
  end.

(** [Number.isFinite(a)] *)
Definition isFinite (a : number) : bool :=
  match a with Fin _ => true | _ => false end.

(** Truthiness of a number: [0] and [NaN] are falsy. *)
Definition truthy (a : number) : bool :=
  match a with
  | NaN => false
  | Infinity _ => true
  | Fin q => negb (Qzero q)
  end.

(** [Math.max(a, b)] *)
Definition max2 (a b : number) : number :=
  match a, b with
  | NaN, _ | _, NaN => NaN
  | _, _ => if lt a b then b else a
  end.

(** [Math.min(a, b)] *)
Definition min2 (a b : number) : number :=
  match a, b with
  | NaN, _ | _, NaN => NaN
  | _, _ => if lt b a then b else a
  end.

(** [Math.max.apply(null, l)]: [-Infinity] when [l] is empty, [NaN] as
    soon as one element is [NaN]. *)
Definition Math_max (l : list number) : number :=
  foldl max2 (Infinity true) l.

(** [Math.round(a)]: the integer nearest to [a], ties going up. *)
Definition Math_round (a : number) : number :=
  match a with
  | Fin q => of_Z (Qfloor (q + (1 # 2))%Q)
  | _ => a
  end.

End Num.

(** ** JavaScript strings

    Strings are sequences of 8-bit characters; positions are integers, as
    [indexOf] answers [-1] and [substring] accepts any integer. *)

Module Str.

Definition len (s : string) : Z := Z.of_nat (String.length s).

(** [s.indexOf(pat)], searching from position [i] on *)
Fixpoint indexOf_from (s pat : string) (i : Z) : Z :=
  if String.prefix pat s then i
  else match s with
       | EmptyString => -1
       | String _ s' => indexOf_from s' pat (i + 1)
       end.

(** [s.indexOf(pat)] *)
Definition indexOf (s pat : string) : Z := indexOf_from s pat 0.

Definition clamp (s : string) (i : Z) : Z := Z.min (Z.max i 0) (len s).

(** [s.substring(from, to)]; [to] is optional.  Both positions are
    clamped to the string and swapped when they come out of order. *)
Definition substring (s : string) (from : Z) (to : option Z) : string :=
  let finalStart := clamp s from in
  let finalEnd := match to with Some t => clamp s t | None => len s end in
  let lo := Z.min finalStart finalEnd in
  let hi := Z.max finalStart finalEnd in
  String.substring (Z.to_nat lo) (Z.to_nat (hi - lo)) s.

Definition toLower (a : ascii) : ascii :=
  let n := nat_of_ascii a in
  if (65 <=? n)%nat && (n <=? 90)%nat then ascii_of_nat (n + 32) else a.

Definition eqb_ci (a b : ascii) : bool := Ascii.eqb (toLower a) (toLower b).

(** What is left of [s] after the literal [lit], compared without
    regard to case, when [s] starts with it. *)
Fixpoint strip_ci (lit s : string) : option string :=
  match lit, s with
  | EmptyString, _ => Some s
  | String a lit', String b s' => if eqb_ci a b then strip_ci lit' s' else None
  | String _ _, EmptyString => None
  end.

(** The characters that [.] refuses in a regular expression. *)
Definition lineTerminator (a : ascii) : bool :=
  Ascii.eqb a "010"%char || Ascii.eqb a "013"%char.

(** [s.replace(/^https?:\/\/(www\.)?/i, '')] *)
Definition removeProtocol (s : string) : string :=
  match strip_ci "http" s with
  | None => s
  | Some r =>
      let r := match strip_ci "s" r with Some r' => r' | None => r end in
      match strip_ci "://" r with
      | None => s
      | Some r =>
          match strip_ci "www." r with Some r' => r' | None => r end
      end
  end.

(** [s.replace(/c.*/g, '')] for a character [c]: every stretch from an
    occurrence of [c] up to the end of its line goes away. *)
Fixpoint removeFrom (c : ascii) (inMatch : bool) (s : string) : string :=
  match s with
  | EmptyString => EmptyString
  | String a s' =>
      if inMatch then
        if lineTerminator a then String a (removeFrom c false s')
        else removeFrom c true s'
      else if Ascii.eqb a c then removeFrom c true s'
      else String a (removeFrom c false s')
  end.

End Str.

(** ** Data

    A HAR capture, as far as the script reads it.  [startedDateTime] holds
    the time value of the [Date] built from the field, in milliseconds
    ([NaN] for a date that does not parse); a missing [mimeType] or
    [pageref] is [None]. *)

Record entry : Type := mkEntry {
  entry_startedDateTime : number;
  request_url : string;
  response_content_mimeType : option string;
  time : number;
  pageref : option string
}.

Record page : Type := mkPage {
  page_startedDateTime : number;
  id : option string;
  pageTimings_onLoad : number
}.

Record HarLog : Type := mkHarLog {
  pages : list page;
  entries : list entry
}.

Record HarData : Type := mkHarData { log : HarLog }.

Inductive filetype : Type := image | script | style | font | other.

(** One request of the timeline.  A field that the script adds to the
    object after its creation is [None] until then. *)
Record item : Type := mkItem {
  tags : option (gmap string bool);
  type : filetype;
  originalUrl : string;
  url : string;
  domain : string;
  path : string;
  start : number;
  duration : number;
  end_ : number;
  firstParty : option bool;
  stats : option bool;
  index : option nat
}.

Definition set_tags (t : gmap string bool) (d : item) : item :=
  mkItem (Some t) (type d) (originalUrl d) (url d) (domain d) (path d)
         (start d) (duration d) (end_ d) (firstParty d) (stats d) (index d).

Definition set_index (i : nat) (d : item) : item :=
  mkItem (tags d) (type d) (originalUrl d) (url d) (domain d) (path d)
         (start d) (duration d) (end_ d) (firstParty d) (stats d) (Some i).

Definition set_firstParty_stats (fp st : bool) (d : item) : item :=
  mkItem (tags d) (type d) (originalUrl d) (url d) (domain d) (path d)
         (start d) (duration d) (end_ d) (Some fp) (Some st) (index d).

(** A regular expression object, known by the strings it matches. *)
Record RegExp : Type := mkRegExp { test : string -> bool }.

(** The configuration object.  [rule] is what a tag name is bound to.
    [firstPartyWhitelist] is a field of the object in the first revision
    and a variable next to it in the second. *)
Record Config (rule : Type) : Type := mkConfig {
  firstPartyWhitelist : list string;
  fileTags : gmap string rule;
  itemHeight : number;
  itemMargin : number
}.
Arguments mkConfig {rule}.
Arguments firstPartyWhitelist {rule}.
Arguments fileTags {rule}.
Arguments itemHeight {rule}.
Arguments itemMargin {rule}.

(** The values a filter function may hand back, as far as [Boolean(...)]
    tells them apart. *)
Inductive value : Type :=
  | VUndefined
  | VNull
  | VBool (b : bool)
  | VNumber (n : number)
  | VString (s : string)
  | VObject.

(** [Boolean(v)] *)
Definition Boolean (v : value) : bool :=
  match v with
  | VUndefined | VNull => false
  | VBool b => b
  | VNumber n => Num.truthy n
  | VString s => negb (String.eqb s "")
  | VObject => true
  end.

(** ** The parts of [getRequestsFromHar] that both revisions share *)

Definition urlAbbreviate (url : string) : string :=
  let url := Str.removeProtocol url in
  let url := Str.removeFrom "?"%char false url in
  let url := Str.removeFrom "#"%char false url in
  url.

Definition mimeToFiletype (mimeType : string) : filetype :=
  if (-1 <? Str.indexOf mimeType "image")%Z then image
  else if (-1 <? Str.indexOf mimeType "script")%Z then script
  else if (-1 <? Str.indexOf mimeType "css")%Z then style
  else if (-1 <? Str.indexOf mimeType "font")%Z then font
  else other.

(** [mimeType || ''] *)
Definition mimeOrEmpty (mimeType : option string) : string :=
  match mimeType with
  | Some m => m
  | None => ""
  end.

(** The object built for one entry by the [map] callback, less its tags. *)
Definition toItem (startDate : number) (e : entry) : item :=
  let startTimeMs := Num.sub (entry_startedDateTime e) startDate in
  let url := urlAbbreviate (request_url e) in
  {| tags := None;
     type := mimeToFiletype (mimeOrEmpty (response_content_mimeType e));
     originalUrl := request_url e;
     url := url;
     domain := Str.substring url 0 (Some (Str.indexOf url "/"));
     path := Str.substring url (Str.indexOf url "/") None;
     start := startTimeMs;
     duration := time e;
     end_ := Num.Math_round (Num.add startTimeMs (time e));
     firstParty := None;
     stats := None;
     index := None |}.

(** "No support for multi-page HAR files at moment -- filter entries to
    first page": the assignment to [harLog.entries]. *)
Definition scopeToFirstPage (harLog : HarLog) (first : page) : HarLog :=
  if (1 <? length (pages harLog))%nat then
    {| pages := pages harLog;
       entries := List.filter
                    (fun e => bool_decide (pageref e = id first))
                    (entries harLog) |}
  else harLog.

(** The regular expressions that the configurations ship. *)
Module Patterns.

Definition lower (s : string) : string :=
  String.string_of_list_ascii (map Str.toLower (String.list_ascii_of_string s)).

Definition endsWith (s suffix : string) : bool :=
  String.eqb
    (Str.substring s (Str.len s - Str.len suffix)%Z None) suffix
  && (Str.len suffix <=? Str.len s)%Z.

Fixpoint noLineTerminator (s : string) : bool :=
  match s with
  | EmptyString => true
  | String a s' => negb (Str.lineTerminator a) && noLineTerminator s'
  end.

(** [/require\.js/i] *)
Definition scriptLoader : RegExp :=
  {| test := fun s => (-1 <? Str.indexOf (lower s) "require.js")%Z |}.

(** Is there a match of [javascripts\-min\/layer\/.*\.js$] that starts
    at the head of [s]? *)
Definition mainScriptHere (s : string) : bool :=
  match Str.strip_ci "javascripts-min/layer/" s with
  | Some r =>
      endsWith (lower r) ".js"
      && noLineTerminator (Str.substring r 0 (Some (Str.len r - 3)%Z))
  | None => false
  end.

Fixpoint mainScriptFrom (s : string) : bool :=
  mainScriptHere s
  || match s with
     | EmptyString => false
     | String _ s' => mainScriptFrom s'
     end.

(** [/javascripts\-min\/layer\/.*\.js$/i] *)
Definition mainScript : RegExp := {| test := mainScriptFrom |}.

(** [new RegExp('(' + whitelist.join('|').replace(/\./g, '\\.') + ')$')]
    for a whitelist of plain domain names: the string ends with one of
    them. *)
Definition endsWithOneOf (whitelist : list string) : RegExp :=
  {| test := fun s => existsb (endsWith s) whitelist |}.

End Patterns.

(** ** Second revision: tags from regular expressions or functions *)

Module Rev2.

Inductive tagRule : Type :=
  | Pattern (regex : RegExp)
  | Filter (f : item -> value).

Definition getMatchFunction (regex : RegExp) : item -> value :=
  fun entry => VBool (test regex (url entry)).

(** The [forEach] over [Object.keys(config.fileTags)]; each round
    writes one key, so the order of the rounds does not show. *)
Definition getFileTags (config : Config tagRule) (entry : item) : gmap string bool :=
  map_fold
    (fun tagName filter tags =>
       let filter := match filter with
                     | Filter f => f
                     | Pattern regex => getMatchFunction regex
                     end in
       <[tagName := Boolean (filter entry)]> tags)
    ∅ (fileTags config).

(** "Add configurable tags to each file": the callback of the [forEach]. *)
Definition addTags (config : Config tagRule) (entry : item) : item :=
  set_tags (getFileTags config entry) entry.

(** The document as the call leaves it, and the array returned; [None]
    stands for the [TypeError] of a document without pages. *)
Definition getRequestsFromHar (config : Config tagRule) (harData : HarData)
  : HarData * option (list item) :=
  match pages (log harData) with
  | [] => (harData, None)
  | first :: _ =>
      let startDate := page_startedDateTime first in
      let onLoad := pageTimings_onLoad first in
      let harLog := scopeToFirstPage (log harData) first in
      let items := map (toItem startDate) (entries harLog) in
      let items := map (addTags config) items in
      let items := List.filter (fun item => Num.le (start item) onLoad) items in
      ({| log := harLog |}, Some items)
  end.

Definition firstPartyWhitelist : list string :=
  ["gawker.com"; "kinja.com"; "kinja-img.com"; "kinja-static.com"].

Definition firstPartyRegex : RegExp := Patterns.endsWithOneOf firstPartyWhitelist.

Definition config : Config tagRule :=
  mkConfig firstPartyWhitelist
    (<["scriptLoader" := Pattern Patterns.scriptLoader]>
     (<["mainScript" := Pattern Patterns.mainScript]>
     (<["firstParty" :=
          Filter (fun item => VBool (test firstPartyRegex (domain item)))]>
     (<["stats" :=
          Filter (fun item =>
                    if test firstPartyRegex (domain item)
                    then VBool (Str.indexOf (path item) "/stats/" =? 0)%Z
                    else VNull)]> ∅))))
    (Num.of_Z 10) (Num.of_Z 2).

End Rev2.

(** ** First revision: tags from regular expressions, first-party flags *)

Module Rev1.

(** [s.replace(/\./g, '\\.')] *)
Fixpoint escapeDots (s : string) : string :=
  match s with
  | EmptyString => EmptyString
  | String a s' =>
      if Ascii.eqb a "."%char then String "\"%char (String a (escapeDots s'))
      else String a (escapeDots s')
  end.

Definition firstPartySource (whitelist : list string) : string :=
  "(" +:+ escapeDots (String.concat "|" whitelist) +:+ ")$".

(** Only matching tags become keys, all bound to [true]. *)
Definition getFileTags (config : Config RegExp) (url : string) : gmap string bool :=
  map_fold
    (fun tagName regex tags =>
       if test regex url then <[tagName := true]> tags else tags)
    ∅ (fileTags config).

Section Engine.

(** [new RegExp(source)]; [None] stands for its [SyntaxError]. *)
Variable RegExp_new : string -> option RegExp.

(** The whitelist grows by the domain of the first request before
    the expression is built.  [None] stands for an exception: the
    [TypeError] of an empty array, which leaves the configuration as
    it was, or the [SyntaxError] of the constructor. *)
Definition getFirstPartyRegex (config : Config RegExp) (requests : list item)
  : Config RegExp * option RegExp :=
  match requests with
  | [] => (config, None)
  | first :: _ =>
      let config :=
        {| firstPartyWhitelist := firstPartyWhitelist config ++ [domain first];
           fileTags := fileTags config;
           itemHeight := itemHeight config;
           itemMargin := itemMargin config |} in
      (config, RegExp_new (firstPartySource (firstPartyWhitelist config)))
  end.

(** All that a call leaves behind: the configuration and the document
    as they are afterwards, the arguments of each [console.log], and the
    array returned, [None] standing for an exception. *)
Record Outcome : Type := mkOutcome {
  config_after : Config RegExp;
  harData_after : HarData;
  console : list (nat * string);
  returned : option (list item)
}.

Definition getRequestsFromHar (config : Config RegExp) (harData : HarData)
  : Outcome :=
  match pages (log harData) with
  | [] => mkOutcome config harData [] None
  | first :: _ =>
      let startDate := page_startedDateTime first in
      let onLoad := pageTimings_onLoad first in
      let harLog := scopeToFirstPage (log harData) first in
      let items :=
        map (fun entry =>
               let item := toItem startDate entry in
               set_tags (getFileTags config (url item)) item)
            (entries harLog) in
      let items := List.filter (fun item => Num.le (start item) onLoad) items in
      let console := [(length items, "total requests")] in
      let '(config, firstPartyRegex) := getFirstPartyRegex config items in
      match firstPartyRegex with
      | None => mkOutcome config {| log := harLog |} console None
      | Some firstPartyRegex =>
          let items :=
            map (fun entry =>
                   let fp := test firstPartyRegex (domain entry) in
                   set_firstParty_stats fp
                     (fp && (Str.indexOf (path entry) "/stats/" =? 0)%Z) entry)
                items in
          mkOutcome config {| log := harLog |} console (Some items)
      end
  end.

End Engine.

Definition config : Config RegExp :=
  {| firstPartyWhitelist := ["kinja.com"; "kinja-img.com"; "kinja-static.com"];
     fileTags :=
       <["scriptLoader" := Patterns.scriptLoader]>
       (<["mainScript" := Patterns.mainScript]> ∅);
     itemHeight := Num.of_Z 10;
     itemMargin := Num.of_Z 2 |}.

End Rev1.

(** ** Zoom to the bounding box of the items that a filter selects *)

(** [margin || 0] for an optional argument *)
Definition orZero (margin : option number) : number :=
  match margin with
  | Some m => if Num.truthy m then m else Num.zero
  | None => Num.zero
  end.

Record Transform : Type := mkTransform { scaleX : number; scaleY : number }.

(** What [zoomToElements] computes on one axis from the maximum over the
    selection, the maximum over all items and the margin: the selection's
    maximum is stretched and clamped when it lies below the overall one,
    and the overall maximum is divided by the outcome. *)
Definition fitAxis (filteredMax max margin : number) : number :=
  Num.div max
    (if Num.lt filteredMax max
     then Num.min2 (Num.mul filteredMax (Num.add Num.one margin)) max
     else filteredMax).

Section Zoom.

Context {rule : Type} (config : Config rule).

Definition getXCoordinate (d : item) : number := end_ d.

(** [d.index * (config.itemHeight + config.itemMargin)]; an [index]
    that was never written is [undefined] and gives [NaN]. *)
Definition getYCoordinate (d : item) : number :=
  Num.mul
    (match index d with Some i => Num.of_nat i | None => NaN end)
    (Num.add (itemHeight config) (itemMargin config)).

(** "Store original index of each item" *)
Definition storeIndex (data : list item) : list item := imap set_index data.

(** The items as the call leaves them, and the two factors that it
    writes into the [transform] of the chart. *)
Definition zoomToElements (data : list item)
    (filter : option (item -> bool)) (margin : option number)
  : list item * Transform :=
  let margin := orZero margin in
  let filter := match filter with
                | Some f => f
                | None => fun _ => true
                end in
  let data := storeIndex data in
  let filtered := List.filter filter data in
  let filteredMax_x := Num.Math_max (map getXCoordinate filtered) in
  let filteredMax_y := Num.Math_max (map getYCoordinate filtered) in
  let max_x := Num.Math_max (map getXCoordinate data) in
  let max_y := Num.Math_max (map getYCoordinate data) in
  let filteredMax_x :=
    if Num.lt filteredMax_x max_x
    then Num.min2 (Num.mul filteredMax_x (Num.add Num.one margin)) max_x
    else filteredMax_x in
  let filteredMax_y :=
    if Num.lt filteredMax_y max_y
    then Num.min2 (Num.mul filteredMax_y (Num.add Num.one margin)) max_y
    else filteredMax_y in
  (data, {| scaleX := Num.div max_x filteredMax_x;
            scaleY := Num.div max_y filteredMax_y |}).

End Zoom.

(** ** The classification of MIME types, as the specification words it

    The keywords are tried in a fixed order, the first one that occurs in
    the MIME type decides, and the type is [other] when none occurs. *)

(** [pat] occurs in [s]. *)
Definition occurs (pat s : string) : Prop :=
  exists pre suf, s = pre +:+ pat +:+ suf.

Definition priority : list (string * filetype) :=
  [("image", image); ("script", script); ("css", style); ("font", font)].

Inductive firstMatch (mimeType : string) : list (string * filetype) -> filetype -> Prop :=
  | firstMatch_none : firstMatch mimeType [] other
  | firstMatch_here keyword t rest :
      occurs keyword mimeType ->
      firstMatch mimeType ((keyword, t) :: rest) t
  | firstMatch_later keyword t rest t' :
      ~ occurs keyword mimeType ->
      firstMatch mimeType rest t' ->
      firstMatch mimeType ((keyword, t) :: rest) t'.

(** ** Sample data *)

Module Sample.

(** An item of the given type that ends at [e] milliseconds. *)
Definition request (t : filetype) (e : Z) : item :=
  {| tags := None; type := t; originalUrl := ""; url := ""; domain := "";
     path := ""; start := Num.zero; duration := Num.zero;
     end_ := Num.of_Z e; firstParty := None; stats := None; index := None |}.

(** [function (item) { return (item.type === 'script'); }] *)
Definition isScript (d : item) : bool :=
  match type d with script => true | _ => false end.

(** A capture: the page starts at 1000 ms and loads 2000 ms later. *)
Definition page1 : page :=
  {| page_startedDateTime := Num.of_Z 1000; id := Some "page_1";
     pageTimings_onLoad := Num.of_Z 2000 |}.

Definition page2 : page :=
  {| page_startedDateTime := Num.of_Z 4000; id := Some "page_2";
     pageTimings_onLoad := Num.of_Z 900 |}.

Definition entry1 : entry :=
  {| entry_startedDateTime := Num.of_Z 1500;
     request_url := "https://www.example.com/a/b?x=1#y";
     response_content_mimeType := Some "application/javascript";
     time := Num.of_Z 200;
     pageref := Some "page_1" |}.

Definition entry2 : entry :=
  {| entry_startedDateTime := Num.of_Z 1990;
     request_url := "http://cdn.kinja-img.com/javascripts-min/layer/Main.JS";
     response_content_mimeType := None;
     time := Fin (61 # 2);
     pageref := Some "page_2" |}.

Definition entry3 : entry :=
  {| entry_startedDateTime := Num.of_Z 5000;
     request_url := "http://gawker.com/stats/require.js";
     response_content_mimeType := Some "text/css";
     time := Num.of_Z 30;
     pageref := Some "page_1" |}.

Definition onePage : HarData :=
  {| log := {| pages := [page1]; entries := [entry1; entry2; entry3] |} |}.

Definition twoPages : HarData :=
  {| log := {| pages := [page1; page2]; entries := [entry1; entry2; entry3] |} |}.

End Sample.

(** ** Class names of slide states *)

Module Case.

Definition isLower (a : ascii) : bool :=
  let n := nat_of_ascii a in (97 <=? n)%nat && (n <=? 122)%nat.

Definition isUpper (a : ascii) : bool :=
  let n := nat_of_ascii a in (65 <=? n)%nat && (n <=? 90)%nat.

(** [toLowerCase] on one character: the letters [A]-[Z] and, among the
    characters above 127 read as Latin-1, the capital letters at 192-222
    but for the multiplication sign at 215. *)
Definition toLowerCase1 (a : ascii) : ascii :=
  let n := nat_of_ascii a in
  if isUpper a then ascii_of_nat (n + 32)
  else if (192 <=? n)%nat && (n <=? 222)%nat && negb (n =? 215)%nat
       then ascii_of_nat (n + 32)
       else a.

(** [s.toLowerCase()] *)
Fixpoint toLowerCase (s : string) : string :=
  match s with
  | EmptyString => EmptyString
  | String a s' => String (toLowerCase1 a) (toLowerCase s')
  end.

(** [s.replace(/([a-z])([A-Z])/g, '$1-$2')]: the search goes on behind
    each pair that it has replaced. *)
Fixpoint hyphenate (s : string) : string :=
  match s with
  | String a (String b rest as s') =>
      if isLower a && isUpper b
      then String a (String "-" (String b (hyphenate rest)))
      else String a (hyphenate s')
  | _ => s
  end.

End Case.

(** "Replace camel-cased state name with hyphenated lowercase classname" *)
Definition toClassName (state : string) : string :=
  Case.toLowerCase (Case.hyphenate state).

(** ** The chart and the slide states

    The chart as the handlers see it: the data bound to the bars, the
    [transform] of the drawing ([None] until a zoom has set it) and the
    classes of its root element.  A state is the [data-state] of a slide,
    [None] when the slide has none.  The registry answers for the names
    that were registered; names that a plain object inherits are outside
    the model. *)

Module Slides.

Record Chart : Type := mkChart {
  bars : list item;
  transform : option Transform;
  classes : gset string
}.

Definition handler : Type := Chart -> Chart.

(** [stateTransitions]; its fields are [in] and [out] in the source. *)
Record StateTransitions : Type := mkStateTransitions {
  in_ : gmap string handler;
  out : gmap string handler
}.

Definition noHandlers : StateTransitions := {| in_ := ∅; out := ∅ |}.

(** [function () {}] *)
Definition noop : handler := fun c => c.

(** [transitionIn || function () {}] *)
Definition orNoop (h : option handler) : handler :=
  match h with
  | Some h => h
  | None => noop
  end.

Definition registerStateChange (state : string)
    (transitionIn transitionOut : option handler) (stateTransitions : StateTransitions)
  : StateTransitions :=
  {| in_ := <[state := orNoop transitionIn]> (in_ stateTransitions);
     out := <[state := orNoop transitionOut]> (out stateTransitions) |}.

(** Truthiness of a state: a string that is not empty. *)
Definition given (state : option string) : bool :=
  match state with
  | Some s => negb (String.eqb s "")
  | None => false
  end.

Section Handlers.

Context {rule : Type} (config : Config rule).

(** What the drawing library makes of a class string: the names in it. *)
Variable classNames : string -> gset string.

(** [svg.classed(name, value)] *)
Definition classed (name : string) (value : bool) (c : Chart) : Chart :=
  {| bars := bars c;
     transform := transform c;
     classes := if value then classes c ∪ classNames name
                else classes c ∖ classNames name |}.

(** [function () { zoomToElements(bars, filter, margin); }] *)
Definition zoomHandler (filter : option (item -> bool)) (margin : option number)
  : handler :=
  fun c =>
    let r := zoomToElements config (bars c) filter margin in
    {| bars := r.1; transform := Some r.2; classes := classes c |}.

Definition resetZoom : handler := zoomHandler None None.

Definition callIfPresent (h : option handler) (c : Chart) : Chart :=
  match h with
  | Some h => h c
  | None => c
  end.

Definition handleStateChange (stateTransitions : StateTransitions)
    (previousState currentState : option string) (c : Chart) : Chart :=
  if decide (currentState = previousState) then c
  else
    let c :=
      match previousState with
      | Some previous =>
          if given previousState then
            let c := if given currentState
                     then callIfPresent (out stateTransitions !! previous) c
                     else c in
            classed (toClassName previous) false c
          else c
      | None => c
      end in
    match currentState with
    | Some current =>
        if given currentState then
          let c := callIfPresent (in_ stateTransitions !! current) c in
          classed (toClassName current) true c
        else c
    | None => c
    end.



(** The first two registrations of the source: [chartInitial] and
    [chartHighlightScripts]. *)
Definition firstRegistrations : StateTransitions :=
  registerStateChange "chartHighlightScripts"
    (Some (zoomHandler
             (Some (fun item => match type item with script => true | _ => false end))
             None))
    (Some resetZoom)
    (registerStateChange "chartInitial" (Some resetZoom) None noHandlers).

End Handlers.

End Slides.

(** More sample data: an engine for regular expressions, as far as the
    sample capture calls for it, and a chart. *)
Module SampleMore.

Definition engine (source : string) : option RegExp :=
  if String.eqb source "(kinja\.com|kinja-img\.com|kinja-static\.com|example\.com)$"
  then Some (Patterns.endsWithOneOf
               ["kinja.com"; "kinja-img.com"; "kinja-static.com"; "example.com"])
  else None.

Definition threeBars : list item :=
  [Sample.request other 10; Sample.request script 12; Sample.request other 15].

Definition chart : Slides.Chart :=
  {| Slides.bars := threeBars; Slides.transform := None; Slides.classes := ∅ |}.

(** One class name for each class string without blanks. *)
Definition oneName (name : string) : gset string := {[ name ]}.

End SampleMore.

(** ** Drawing the bars *)

Module Draw.

Record Rect : Type := mkRect {
  rect_id : string;
  rect_x : number;
  rect_y : number;
  rect_width : number;
  rect_height : number;
  rect_title : string
}.

(** The numbers of the [viewBox] and the bars. *)
Record Svg : Type := mkSvg {
  viewBox_width : number;
  viewBox_height : number;
  rects : list Rect
}.

Section Draw.

Context {rule : Type} (config : Config rule).

Definition bar (i : nat) (d : item) : Rect :=
  {| rect_id := "chartEntry" +:+ pretty i;
     rect_x := start d;
     rect_y := Num.mul (Num.of_nat i)
                       (Num.add (itemHeight config) (itemMargin config));
     rect_width := duration d;
     rect_height := itemHeight config;
     rect_title := domain d +:+ path d |}.

(** What the callback of [d3.json] draws from the array of requests;
    [None] stands for the [TypeError] of [last.end] on an empty array. *)
Definition draw (data : list item) : option Svg :=
  match last data with
  | None => None
  | Some last =>
      let totalHeight :=
        Num.mul (Num.add (itemHeight config) (itemMargin config))
                (Num.of_nat (length data)) in
      Some {| viewBox_width := end_ last;
              viewBox_height := totalHeight;
              rects := imap bar data |}
  end.

End Draw.

End Draw.

Example round_half_up :
  Num.Math_round (Fin (5 # 2)) = Fin 3%Q /\ Num.Math_round (Fin (- 5 # 2)) = Fin (-2)%Q.
Proof. split; reflexivity. Qed.

Example max_empty : Num.Math_max [] = Infinity true.
Proof. reflexivity. Qed.

Example div_cases :
  Num.div (Fin 0%Q) (Fin 0%Q) = NaN /\
  Num.div (Fin 20%Q) (Infinity true) = Fin 0%Q /\
  Num.div (Fin 12%Q) (Fin 0%Q) = Infinity false /\
  Num.div (Fin 6%Q) (Fin 4%Q) = Fin (3 # 2).
Proof. repeat split; reflexivity. Qed.

Example urlAbbreviate_example :
  urlAbbreviate "https://www.example.com/a/b?x=1#y" = "example.com/a/b".
Proof. reflexivity. Qed.

Example substring_examples :
  Str.substring "abc/def" 0 (Some (Str.indexOf "abc/def" "/")) = "abc" /\
  Str.substring "abc/def" (Str.indexOf "abc/def" "/") None = "/def" /\
  Str.substring "abcdef" 0 (Some (Str.indexOf "abcdef" "/")) = "" /\
  Str.substring "abcdef" (Str.indexOf "abcdef" "/") None = "abcdef".
Proof. repeat split; reflexivity. Qed.

(** ** Arithmetic of the number model *)

Section NumberFacts.

Local Open Scope Q_scope.

Lemma Qzero_spec q : Num.Qzero q = true <-> q == 0.
Proof.
  unfold Num.Qzero. rewrite Qeq_alt.
  destruct (q ?= 0); split; congruence.
Qed.

Lemma Qzero_false q : Num.Qzero q = false <-> ~ q == 0.
Proof. rewrite <- Qzero_spec. destruct (Num.Qzero q); split; congruence. Qed.

Lemma Qneg_spec q : Num.Qneg q = true <-> q < 0.
Proof.
  unfold Num.Qneg. rewrite Qlt_alt.
  destruct (q ?= 0); split; congruence.
Qed.

Lemma lt_Fin p q : Num.lt (Fin p) (Fin q) = true <-> p < q.
Proof.
  simpl. rewrite Qlt_alt. destruct (p ?= q); split; congruence.
Qed.

Lemma lt_Fin_false p q : Num.lt (Fin p) (Fin q) = false <-> q <= p.
Proof.
  split.
  - intros H. apply Qnot_lt_le. intros Hlt. apply lt_Fin in Hlt. congruence.
  - intros H. destruct (Num.lt (Fin p) (Fin q)) eqn:E; [|reflexivity].
    apply lt_Fin in E. lra.
Qed.

Lemma le_Fin p q : Num.le (Fin p) (Fin q) = true <-> p <= q.
Proof.
  simpl. rewrite Qle_alt. destruct (p ?= q); split; congruence.
Qed.

Lemma Qred_eq p q : p == q -> Qred p = Qred q.
Proof. apply Qred_complete. Qed.

Lemma number_lt_irrefl a : Num.lt a a = false.
Proof.
  destruct a as [|[]|q]; try reflexivity.
  apply lt_Fin_false. apply Qle_refl.
Qed.

Lemma number_le_refl_Fin q : Num.le (Fin q) (Fin q) = true.
Proof. apply le_Fin, Qle_refl. Qed.

Lemma number_le_trans a b c :
  Num.le a b = true -> Num.le b c = true -> Num.le a c = true.
Proof.
  destruct a as [|[]|p], b as [|[]|q], c as [|[]|r]; simpl; try congruence.
  fold (Num.le (Fin p) (Fin q)). fold (Num.le (Fin q) (Fin r)).
  fold (Num.le (Fin p) (Fin r)). rewrite !le_Fin. apply Qle_trans.
Qed.

(** [x / x] is [1] for every finite [x] but zero. *)
Lemma div_self q : ~ q == 0 -> Num.div (Fin q) (Fin q) = Fin 1.
Proof.
  intros Hq. simpl. rewrite (proj2 (Qzero_false q) Hq).
  f_equal. change 1 with (Qred 1). apply Qred_eq. now field.
Qed.

Lemma div_Fin p q :
  ~ q == 0 -> Num.div (Fin p) (Fin q) = Fin (Qred (p / q)).
Proof. intros Hq. simpl. now rewrite (proj2 (Qzero_false q) Hq). Qed.

Lemma div_zero p q : q == 0 -> 0 < p -> Num.div (Fin p) (Fin q) = Infinity false.
Proof.
  intros Hq Hp. unfold Num.div.
  rewrite (proj2 (Qzero_spec q) Hq).
  assert (Num.Qzero p = false) as -> by (apply Qzero_false; lra).
  destruct (Num.Qneg p) eqn:E; [|reflexivity].
  apply Qneg_spec in E. lra.
Qed.

(** A positive quantity divided by a part of itself is at least [1]. *)
Lemma div_ge_one p q :
  0 <= q -> q <= p -> 0 < p -> Num.le Num.one (Num.div (Fin p) (Fin q)) = true.
Proof.
  intros H0 Hq Hp. destruct (Qeq_dec q 0) as [E|E].
  - now rewrite div_zero.
  - rewrite div_Fin by done. apply le_Fin. rewrite Qred_correct.
    apply Qle_shift_div_l; lra.
Qed.

(** Dividing by more gives less. *)
Lemma div_antitone p q r :
  0 <= q -> q <= r -> 0 < p ->
  Num.le (Num.div (Fin p) (Fin r)) (Num.div (Fin p) (Fin q)) = true.
Proof.
  intros H0 Hq Hp. destruct (Qeq_dec q 0) as [E|E].
  - rewrite (div_zero p q) by done.
    destruct (Qeq_dec r 0) as [E'|E'].
    + now rewrite div_zero.
    + now rewrite div_Fin.
  - assert (0 < q) by lra. assert (0 < r) by lra.
    rewrite !div_Fin by lra. apply le_Fin. rewrite !Qred_correct.
    apply Qle_shift_div_l; [done|].
    apply Qle_trans with (p / r * r); [|field_simplify; lra].
    apply Qmult_le_l; [|done].
    apply Qlt_shift_div_l; lra.
Qed.

Lemma add_Fin p q : Num.add (Fin p) (Fin q) = Fin (Qred (p + q)).
Proof. reflexivity. Qed.

Lemma mul_Fin p q : Num.mul (Fin p) (Fin q) = Fin (Qred (p * q)).
Proof. reflexivity. Qed.

Lemma min2_Fin p q :
  Num.min2 (Fin p) (Fin q) = if Num.lt (Fin q) (Fin p) then Fin q else Fin p.
Proof. reflexivity. Qed.

End NumberFacts.

(** ** Maxima of lists of numbers *)

Section MaxFacts.

Local Open Scope Q_scope.

Lemma number_le_refl a : a <> NaN -> Num.le a a = true.
Proof. destruct a as [|[]|q]; [done|done|done|]. intros _. apply number_le_refl_Fin. Qed.

Lemma max2_inv a b :
  Num.max2 a b <> NaN ->
  Num.le a (Num.max2 a b) = true /\ Num.le b (Num.max2 a b) = true /\
  (Num.max2 a b = a \/ Num.max2 a b = b).
Proof.
  destruct a as [|[]|p], b as [|[]|r]; try done; intros _;
    try (repeat split; auto; fail).
  - change (Num.max2 (Infinity true) (Fin r)) with (Fin r).
    rewrite number_le_refl_Fin. auto.
  - change (Num.max2 (Fin p) (Infinity true)) with (Fin p).
    rewrite number_le_refl_Fin. auto.
  - unfold Num.max2. destruct (Num.lt _ _) eqn:E.
    + apply lt_Fin in E. rewrite number_le_refl_Fin.
      split; [apply le_Fin; lra | auto].
    + apply lt_Fin_false in E. rewrite number_le_refl_Fin.
      split; [auto | split; [now apply le_Fin | auto]].
Qed.

Lemma foldl_max2_inv l : forall a q,
  foldl Num.max2 a l = Fin q ->
  Num.le a (Fin q) = true /\
  (forall x, x ∈ l -> Num.le x (Fin q) = true) /\
  (a = Fin q \/ Fin q ∈ l).
Proof.
  induction l as [|y l IH]; intros a q H; simpl in H.
  - subst a. rewrite number_le_refl_Fin. split; [done|]. split; [|by left].
    intros x Hx. by apply elem_of_nil in Hx.
  - destruct (IH _ _ H) as (Hle & Hall & Hel).
    assert (Num.max2 a y <> NaN) as Hm.
    { intros E. rewrite E in Hle. discriminate. }
    destruct (max2_inv _ _ Hm) as (Ha & Hy & Hay).
    split; [by eapply number_le_trans|]. split.
    + intros x [->|Hx]%elem_of_cons; [by eapply number_le_trans | by apply Hall].
    + destruct Hel as [Hel|Hel].
      * rewrite Hel in Hay. destruct Hay as [<-| <-]; [by left | right; left].
      * right; by right.
Qed.

(** A finite maximum bounds every element of the list. *)
Lemma Math_max_upper l q x :
  Num.Math_max l = Fin q -> x ∈ l -> Num.le x (Fin q) = true.
Proof. intros H. by apply (foldl_max2_inv l _ _ H). Qed.

(** A finite maximum is one of the elements. *)
Lemma Math_max_elem l q : Num.Math_max l = Fin q -> Fin q ∈ l.
Proof.
  intros H. destruct (foldl_max2_inv l _ _ H) as (_ & _ & [?|?]); done.
Qed.

Lemma foldl_max2_finite l : forall a,
  Forall (fun x => Num.isFinite x = true) l ->
  (exists p, a = Fin p) ->
  exists q, foldl Num.max2 a l = Fin q.
Proof.
  induction l as [|y l IH]; intros a Hl [p ->]; simpl.
  - by exists p.
  - inversion Hl as [|? ? Hy Hl']; subst.
    destruct y as [| |r]; try discriminate.
    apply IH; [done|]. simpl.
    destruct (match p ?= r with Lt => true | _ => false end); eauto.
Qed.

(** The maximum of finite numbers, when there is one at all, is finite. *)
Lemma Math_max_finite l :
  l <> [] -> Forall (fun x => Num.isFinite x = true) l ->
  exists q, Num.Math_max l = Fin q.
Proof.
  destruct l as [|y l]; [done|]. intros _ Hl.
  inversion Hl as [|? ? Hy Hl']; subst.
  destruct y as [| |r]; try discriminate.
  unfold Num.Math_max. simpl. apply foldl_max2_finite; eauto.
Qed.

Lemma elem_of_map_filter {A B} (f : A -> B) (p : A -> bool) (l : list A) x :
  x ∈ map f (List.filter p l) -> x ∈ map f l.
Proof.
  rewrite !list_elem_of_In, !in_map_iff.
  intros (y & <- & Hy). apply filter_In in Hy as [Hy _]. eauto.
Qed.

(** The maximum over a selection does not exceed the maximum over all. *)
Lemma Math_max_filter_le {A} (f : A -> number) (p : A -> bool) (l : list A) qf qM :
  Num.Math_max (map f (List.filter p l)) = Fin qf ->
  Num.Math_max (map f l) = Fin qM ->
  qf <= qM.
Proof.
  intros Hf HM. apply le_Fin.
  apply (Math_max_upper _ _ _ HM).
  by apply (elem_of_map_filter f p), Math_max_elem.
Qed.

End MaxFacts.

(** ** One axis of the fit *)

Section AxisFacts.

Local Open Scope Q_scope.

(** Nothing is stretched when the selection reaches the overall maximum. *)
Lemma fitAxis_same M margin : fitAxis M M margin = Num.div M M.
Proof. unfold fitAxis. now rewrite number_lt_irrefl. Qed.

(** The denominator of [fitAxis] for finite arguments, [qf] below [qM]. *)
Lemma clamp_Fin qf qM m :
  0 <= qf -> qf < qM -> -1 <= m ->
  exists qa,
    Num.min2 (Num.mul (Fin qf) (Num.add Num.one (Fin m))) (Fin qM) = Fin qa /\
    0 <= qa /\ qa <= qM /\
    (qa == qf * (1 + m) \/ (qa = qM /\ qM < qf * (1 + m))).
Proof.
  intros H0 Hlt Hm. unfold Num.one. rewrite add_Fin, mul_Fin, min2_Fin.
  assert (Qred (qf * Qred (1 + m)) == qf * (1 + m)) as E
    by now rewrite !Qred_correct.
  assert (0 <= qf * (1 + m)) by (apply Qmult_le_0_compat; lra).
  destruct (Num.lt _ _) eqn:L.
  - apply lt_Fin in L. exists qM. rewrite E in L.
    repeat split; try lra. right. split; [done | lra].
  - apply lt_Fin_false in L. eexists. split; [reflexivity|].
    rewrite E in *. repeat split; lra.
Qed.

Lemma fitAxis_ge_one qf qM m :
  0 <= qf -> qf <= qM -> 0 < qM -> -1 <= m ->
  Num.le Num.one (fitAxis (Fin qf) (Fin qM) (Fin m)) = true.
Proof.
  intros H0 Hle HM Hm. unfold fitAxis.
  destruct (Num.lt (Fin qf) (Fin qM)) eqn:L.
  - apply lt_Fin in L.
    destruct (clamp_Fin qf qM m) as (qa & -> & ? & ? & _); try done.
    now apply div_ge_one.
  - now apply div_ge_one.
Qed.

Lemma fitAxis_antitone qf qM m1 m2 :
  0 <= qf -> qf <= qM -> 0 < qM -> -1 <= m1 -> m1 <= m2 ->
  Num.le (fitAxis (Fin qf) (Fin qM) (Fin m2))
         (fitAxis (Fin qf) (Fin qM) (Fin m1)) = true.
Proof.
  intros H0 Hle HM Hm1 Hm. unfold fitAxis.
  destruct (Num.lt (Fin qf) (Fin qM)) eqn:L.
  - apply lt_Fin in L.
    destruct (clamp_Fin qf qM m1) as (a1 & -> & ? & ? & Ha1); try done.
    destruct (clamp_Fin qf qM m2) as (a2 & -> & ? & ? & Ha2); try lra.
    apply div_antitone; try done.
    assert (qf * (1 + m1) <= qf * (1 + m2)).
    { destruct (Qeq_dec qf 0) as [E|E]; [rewrite E; lra|].
      apply Qmult_le_l; lra. }
    destruct Ha1 as [E1|[-> ?]], Ha2 as [E2|[-> ?]]; lra.
  - apply lt_Fin_false in L. apply div_antitone; lra.
Qed.

End AxisFacts.

(** ** The items and coordinates inside [zoomToElements] *)

Section ZoomFacts.

Context {rule : Type} (config : Config rule).

Local Open Scope Q_scope.

Lemma map_end_imap (f : nat -> item -> item) (l : list item) :
  (forall i d, end_ (f i d) = end_ d) ->
  map getXCoordinate (imap f l) = map end_ l.
Proof.
  revert f. induction l as [|d l IH]; intros f Hf; [done|].
  simpl. unfold getXCoordinate at 1. rewrite Hf. f_equal.
  apply IH. intros i d'. apply Hf.
Qed.

(** Writing the indices leaves the horizontal coordinates alone. *)
Lemma getX_storeIndex data :
  map getXCoordinate (storeIndex data) = map end_ data.
Proof. now apply map_end_imap. Qed.

Lemma elem_of_storeIndex d data :
  d ∈ storeIndex data ->
  exists i d0, data !! i = Some d0 /\ d = set_index i d0.
Proof.
  unfold storeIndex. intros (i & d0 & -> & H)%elem_of_lookup_imap. eauto.
Qed.

Lemma storeIndex_lookup data i d0 :
  data !! i = Some d0 -> set_index i d0 ∈ storeIndex data.
Proof.
  intros H. unfold storeIndex. apply elem_of_lookup_imap. eauto.
Qed.

Lemma storeIndex_nil data : storeIndex data = [] -> data = [].
Proof. destruct data; [done | discriminate]. Qed.

Lemma getY_set_index k i d :
  Num.add (itemHeight config) (itemMargin config) = Fin k ->
  getYCoordinate config (set_index i d)
  = Fin (Qred (inject_Z (Z.of_nat i) * k)).
Proof. intros Hk. unfold getYCoordinate. now rewrite Hk. Qed.

Lemma inject_nat_nonneg i : 0 <= inject_Z (Z.of_nat i).
Proof. change 0 with (inject_Z 0). rewrite <- Zle_Qle. lia. Qed.

(** With a finite pitch every vertical coordinate is finite. *)
Lemma getY_finite k (p : item -> bool) data :
  Num.add (itemHeight config) (itemMargin config) = Fin k ->
  Forall (fun y => Num.isFinite y = true)
         (map (getYCoordinate config) (List.filter p (storeIndex data))).
Proof.
  intros Hk. apply Forall_forall. intros y Hy.
  apply elem_of_map_filter in Hy.
  apply list_elem_of_In, in_map_iff in Hy as (d & <- & Hd).
  apply list_elem_of_In, elem_of_storeIndex in Hd as (i & d0 & _ & ->).
  now rewrite (getY_set_index k).
Qed.

(** With a pitch that is not negative no vertical coordinate is. *)
Lemma getY_nonneg k (p : item -> bool) data q :
  Num.add (itemHeight config) (itemMargin config) = Fin k -> 0 <= k ->
  Fin q ∈ map (getYCoordinate config) (List.filter p (storeIndex data)) ->
  0 <= q.
Proof.
  intros Hk Hk0 Hy. apply elem_of_map_filter in Hy.
  apply list_elem_of_In, in_map_iff in Hy as (d & Hq & Hd).
  apply list_elem_of_In, elem_of_storeIndex in Hd as (i & d0 & _ & ->).
  rewrite (getY_set_index k) in Hq by done. injection Hq as <-.
  rewrite Qred_correct. apply Qmult_le_0_compat; [apply inject_nat_nonneg | done].
Qed.

Lemma filter_all {A} (p : A -> bool) (l : list A) :
  (forall x, x ∈ l -> p x = true) -> List.filter p l = l.
Proof.
  induction l as [|x l IH]; intros H; [done|]. simpl.
  rewrite H by left. f_equal. apply IH. intros y Hy. apply H. by right.
Qed.

Lemma filter_none {A} (p : A -> bool) (l : list A) :
  (forall x, x ∈ l -> p x = false) -> List.filter p l = [].
Proof.
  induction l as [|x l IH]; intros H; [done|]. simpl.
  rewrite H by left. apply IH. intros y Hy. apply H. by right.
Qed.

Lemma map_eq_nil_inv {A B} (f : A -> B) (l : list A) : map f l = [] -> l = [].
Proof. destruct l; [done | discriminate]. Qed.

(** The two maxima over all items, for a positive pitch. *)
Lemma max_y_finite k data :
  Num.add (itemHeight config) (itemMargin config) = Fin k ->
  data <> [] ->
  exists q, Num.Math_max (map (getYCoordinate config) (storeIndex data)) = Fin q.
Proof.
  intros Hk Hne. apply Math_max_finite.
  - intros E. apply map_eq_nil_inv, storeIndex_nil in E. done.
  - rewrite <- (filter_all (fun _ => true) (storeIndex data)) by done.
    now apply (getY_finite k).
Qed.

Lemma max_y_positive k data q :
  Num.add (itemHeight config) (itemMargin config) = Fin k -> 0 < k ->
  (2 <= length data)%nat ->
  Num.Math_max (map (getYCoordinate config) (storeIndex data)) = Fin q ->
  0 < q.
Proof.
  intros Hk Hk0 Hlen Hq.
  destruct (lookup_lt_is_Some_2 data 1%nat) as [d1 Hd1]; [lia|].
  apply storeIndex_lookup in Hd1.
  assert (Num.le (getYCoordinate config (set_index 1 d1)) (Fin q) = true) as Hle.
  { apply (Math_max_upper _ _ _ Hq).
    apply list_elem_of_In, in_map, list_elem_of_In, Hd1. }
  rewrite (getY_set_index k) in Hle by done.
  apply le_Fin in Hle. rewrite Qred_correct in Hle.
  change (inject_Z (Z.of_nat 1)) with 1 in Hle. lra.
Qed.

(** What the call returns, axis by axis. *)
Lemma zoomToElements_unfold data (filter : option (item -> bool)) margin :
  zoomToElements config data filter margin =
  let f := match filter with Some f => f | None => fun _ => true end in
  let data' := storeIndex data in
  (data',
   {| scaleX := fitAxis (Num.Math_max (map getXCoordinate (List.filter f data')))
                        (Num.Math_max (map getXCoordinate data'))
                        (orZero margin);
      scaleY := fitAxis (Num.Math_max (map (getYCoordinate config) (List.filter f data')))
                        (Num.Math_max (map (getYCoordinate config) data'))
                        (orZero margin) |}).
Proof. reflexivity. Qed.

End ZoomFacts.

(** ** Zooming *)

Section ZoomTheorems.

Context {rule : Type} (config : Config rule).

Local Open Scope Q_scope.

(** C1, amended.  With at least two items, a largest [end] that is
    finite and not zero, and a filter that accepts every item or no
    filter at all, the call leaves both scale factors at [1], whatever
    the margin ([k], the height of an item plus the margin between
    items, is positive). *)
Theorem zoom_all_is_identity (data : list item)
    (filter : option (item -> bool)) (margin : option number) (k qx : Q) :
  Num.add (itemHeight config) (itemMargin config) = Fin k -> 0 < k ->
  (2 <= length data)%nat ->
  Num.Math_max (map end_ data) = Fin qx -> ~ qx == 0 ->
  (forall f d, filter = Some f -> d ∈ storeIndex data -> f d = true) ->
  zoomToElements config data filter margin
  = (storeIndex data, {| scaleX := Num.one; scaleY := Num.one |}).
Proof.
  intros Hk Hk0 Hlen Hx Hqx Hall.
  rewrite zoomToElements_unfold. cbv zeta.
  rewrite filter_all.
  2:{ intros d Hd. destruct filter as [f|]; [by apply Hall | done]. }
  rewrite !fitAxis_same, getX_storeIndex, Hx, (div_self qx) by done.
  destruct (max_y_finite config k data) as [qy Hy]; [done | |].
  { intros ->. simpl in Hlen. lia. }
  pose proof (max_y_positive config k data qy Hk Hk0 Hlen Hy).
  rewrite Hy, div_self; [done | lra].
Qed.

(** C5, amended.  When the filter accepts none of the items, all of
    which end at a finite time, both maxima over the selection are
    [-Infinity] and, for a margin above [-1] (the default [0] is one),
    both scale factors are zero: the call goes through and its result
    is finite. *)
Theorem zoom_no_match_is_zero (data : list item) (f : item -> bool)
    (margin : option number) (k m : Q) :
  Num.add (itemHeight config) (itemMargin config) = Fin k ->
  data <> [] ->
  Forall (fun d => Num.isFinite (end_ d) = true) data ->
  (forall d, d ∈ storeIndex data -> f d = false) ->
  orZero margin = Fin m -> -1 < m ->
  Num.Math_max (map getXCoordinate (List.filter f (storeIndex data)))
    = Infinity true /\
  Num.Math_max (map (getYCoordinate config) (List.filter f (storeIndex data)))
    = Infinity true /\
  zoomToElements config data (Some f) margin
    = (storeIndex data, {| scaleX := Fin 0; scaleY := Fin 0 |}).
Proof.
  intros Hk Hne Hfin Hnone Hm Hm1.
  rewrite zoomToElements_unfold. cbv zeta.
  rewrite (filter_none f) by done. split; [done|]. split; [done|].
  assert (forall M, fitAxis (Infinity true) (Fin M) (Fin m) = Fin 0) as Hfit.
  { intros M. unfold fitAxis, Num.one.
    change (Num.lt (Infinity true) (Fin M)) with true. cbv iota.
    rewrite add_Fin. unfold Num.mul.
    assert (0 < Qred (1 + m)) as Hpos by (rewrite Qred_correct; lra).
    assert (Num.Qzero (Qred (1 + m)) = false) as -> by (apply Qzero_false; lra).
    assert (Num.Qneg (Qred (1 + m)) = false) as ->.
    { destruct (Num.Qneg _) eqn:E; [apply Qneg_spec in E; lra | done]. }
    reflexivity. }
  destruct (Math_max_finite (map getXCoordinate (storeIndex data))) as [qx Hx].
  { intros E. by apply map_eq_nil_inv, storeIndex_nil in E. }
  { rewrite getX_storeIndex. apply Forall_forall. intros x Hx.
    apply list_elem_of_In, in_map_iff in Hx as (d & <- & Hd).
    rewrite Forall_forall in Hfin. by apply Hfin, list_elem_of_In. }
  destruct (max_y_finite config k data Hk Hne) as [qy Hy].
  simpl map. change (Num.Math_max []) with (Infinity true).
  by rewrite Hx, Hy, Hm, !Hfit.
Qed.

(** C10, amended.  When the largest [end] over the selection is finite
    and positive, the margin is at least [-1] (the default [0] is), and
    the maxima over all items are finite and positive on both axes,
    neither scale factor is below [1].  A finite maximum over the
    selection says that the filter accepts at least one item. *)
Theorem zoom_magnifies (data : list item) (f : item -> bool)
    (margin : option number) (qf qMx qMy m : Q) :
  Num.Math_max (map getXCoordinate (storeIndex data)) = Fin qMx -> 0 < qMx ->
  Num.Math_max (map (getYCoordinate config) (storeIndex data)) = Fin qMy ->
  0 < qMy ->
  Num.Math_max (map getXCoordinate (List.filter f (storeIndex data))) = Fin qf ->
  0 < qf ->
  orZero margin = Fin m -> -1 <= m ->
  Num.le Num.one (scaleX (zoomToElements config data (Some f) margin).2) = true /\
  Num.le Num.one (scaleY (zoomToElements config data (Some f) margin).2) = true.
Proof.
  intros HMx HMx0 HMy HMy0 Hfx Hf0 Hm Hm1.
  rewrite zoomToElements_unfold. cbv zeta. simpl.
  rewrite HMx, HMy, Hfx, Hm. split.
  - apply fitAxis_ge_one; try lra.
    eapply (Math_max_filter_le getXCoordinate); eauto.
  - (* the pitch is finite and positive, as the largest ordinate is *)
    assert (exists k, Num.add (itemHeight config) (itemMargin config) = Fin k
                      /\ 0 < k) as (k & Hk & Hk0).
    { apply Math_max_elem in HMy.
      apply list_elem_of_In, in_map_iff in HMy as (d & Hd & Hin).
      apply list_elem_of_In, elem_of_storeIndex in Hin as (i & d0 & _ & ->).
      unfold getYCoordinate in Hd.
      change (index (set_index i d0)) with (Some i) in Hd. cbv iota in Hd.
      destruct (Num.add (itemHeight config) (itemMargin config)) as [|s|k].
      - discriminate.
      - unfold Num.of_nat, Num.of_Z, Num.mul in Hd.
        destruct (Num.Qzero _); discriminate.
      - exists k. split; [done|].
        unfold Num.of_nat, Num.of_Z in Hd. rewrite mul_Fin in Hd.
        injection Hd as <-. rewrite Qred_correct in HMy0.
        pose proof (inject_nat_nonneg i).
        destruct (Qlt_le_dec 0 k) as [|Hk]; [done|].
        exfalso. apply (Qlt_irrefl 0).
        eapply Qlt_le_trans; [exact HMy0|].
        rewrite <- (Qmult_0_r (inject_Z (Z.of_nat i))).
        destruct (Qeq_dec (inject_Z (Z.of_nat i)) 0) as [E|E].
        + rewrite E. lra.
        + apply Qmult_le_l; lra. }
    destruct (Math_max_finite
                (map (getYCoordinate config) (List.filter f (storeIndex data))))
      as [qfy Hfy].
    { intros E. apply map_eq_nil_inv in E. rewrite E in Hfx. discriminate. }
    { by apply (getY_finite config k). }
    rewrite Hfy. apply fitAxis_ge_one; try lra.
    + eapply (getY_nonneg config k f data); [done | lra |].
      by apply Math_max_elem.
    + eapply (Math_max_filter_le (getYCoordinate config)); eauto.
Qed.

(** C2, amended.  Take two margins, the smaller one at least [-1].  On
    the horizontal axis, when the largest [end] over the selection is
    finite, positive and below the largest [end] over all items, the
    selection's maximum is multiplied by one plus the margin and clamped
    to the overall maximum; the scale factor for the larger margin is
    not above the one for the smaller margin, and not below [1].  The
    same holds on the vertical axis when the selection's maximum is
    finite and below the overall one.  On an axis where the selection's
    maximum is not below the overall one the margin is not used. *)
Theorem zoom_margin_clamps (data : list item) (f : item -> bool)
    (margin1 margin2 : option number) (k m1 m2 : Q) :
  Num.add (itemHeight config) (itemMargin config) = Fin k -> 0 < k ->
  orZero margin1 = Fin m1 -> orZero margin2 = Fin m2 ->
  -1 <= m1 -> m1 <= m2 ->
  let data' := storeIndex data in
  let fx := Num.Math_max (map getXCoordinate (List.filter f data')) in
  let Mx := Num.Math_max (map getXCoordinate data') in
  let fy := Num.Math_max (map (getYCoordinate config) (List.filter f data')) in
  let My := Num.Math_max (map (getYCoordinate config) data') in
  let r1 := (zoomToElements config data (Some f) margin1).2 in
  let r2 := (zoomToElements config data (Some f) margin2).2 in
  (forall qf qM, fx = Fin qf -> Mx = Fin qM -> 0 < qf -> qf < qM ->
     scaleX r2
       = Num.div Mx (Num.min2 (Num.mul fx (Num.add Num.one (Fin m2))) Mx) /\
     Num.le (scaleX r2) (scaleX r1) = true /\
     Num.le Num.one (scaleX r2) = true) /\
  (forall qf qM, fy = Fin qf -> My = Fin qM -> qf < qM ->
     scaleY r2
       = Num.div My (Num.min2 (Num.mul fy (Num.add Num.one (Fin m2))) My) /\
     Num.le (scaleY r2) (scaleY r1) = true /\
     Num.le Num.one (scaleY r2) = true) /\
  (Num.lt fx Mx = false -> scaleX r2 = Num.div Mx fx) /\
  (Num.lt fy My = false -> scaleY r2 = Num.div My fy).
Proof.
  intros Hk Hk0 Hm1 Hm2 Hlow Hle data' fx Mx fy My r1 r2.
  subst r1 r2. rewrite !zoomToElements_unfold. cbv zeta. simpl.
  fold data' fx Mx fy My. rewrite Hm1, Hm2.
  split; [|split; [|split]].
  - intros qf qM -> -> Hqf Hlt. split; [|split].
    + unfold fitAxis. now rewrite (proj2 (lt_Fin qf qM) Hlt).
    + apply fitAxis_antitone; lra.
    + apply fitAxis_ge_one; lra.
  - intros qf qM Hfy HMy Hlt.
    assert (0 <= qf) as Hqf.
    { eapply (getY_nonneg config k f data); [done | lra |].
      by apply Math_max_elem. }
    rewrite Hfy, HMy. split; [|split].
    + unfold fitAxis. now rewrite (proj2 (lt_Fin qf qM) Hlt).
    + apply fitAxis_antitone; lra.
    + apply fitAxis_ge_one; lra.
  - intros Hnlt. unfold fitAxis. now rewrite Hnlt.
  - intros Hnlt. unfold fitAxis. now rewrite Hnlt.
Qed.

End ZoomTheorems.

(** *** The four statements above on concrete timelines *)

Section ZoomExamples.

Import Sample.

(** C1 as stated fails on a timeline of one item: the only ordinate is
    [0], so the vertical factor is [0 / 0]. *)
Lemma zoom_single_item_not_identity :
  (zoomToElements Rev2.config [request other 100] None None).2
    = {| scaleX := Fin 1; scaleY := NaN |} /\
  (zoomToElements Rev2.config [request other 100] None None).2
    <> {| scaleX := Num.one; scaleY := Num.one |}.
Proof. split; [reflexivity | discriminate]. Qed.

Lemma zoom_all_is_identity_witness :
  zoomToElements Rev2.config
    [request other 10; request script 20; request other 15]
    None (Some (Fin (1 # 10)))
  = (storeIndex [request other 10; request script 20; request other 15],
     {| scaleX := Num.one; scaleY := Num.one |}).
Proof.
  apply (zoom_all_is_identity Rev2.config _ None _ 12%Q 20%Q).
  - reflexivity.
  - reflexivity.
  - simpl. lia.
  - reflexivity.
  - discriminate.
  - discriminate.
Defined.

(** C5 as stated fails: with no item selected the factors are zero,
    which is finite. *)
Lemma zoom_no_match_is_finite :
  let r := (zoomToElements Rev2.config [request other 10; request other 20]
              (Some isScript) None).2 in
  List.filter isScript (storeIndex [request other 10; request other 20]) = [] /\
  r = {| scaleX := Fin 0; scaleY := Fin 0 |} /\
  Num.isFinite (scaleX r) = true /\ Num.isFinite (scaleY r) = true.
Proof. repeat split; reflexivity. Qed.

Lemma zoom_no_match_is_zero_witness :
  zoomToElements Rev2.config [request other 10; request other 20]
    (Some isScript) (Some (Fin (1 # 10)))
  = (storeIndex [request other 10; request other 20],
     {| scaleX := Fin 0; scaleY := Fin 0 |}).
Proof.
  apply (zoom_no_match_is_zero Rev2.config _ isScript _ 12%Q (1 # 10)).
  - reflexivity.
  - discriminate.
  - repeat constructor.
  - intros d Hd. simpl in Hd.
    repeat (apply elem_of_cons in Hd as [->|Hd]; [reflexivity|]).
    by apply elem_of_nil in Hd.
  - reflexivity.
  - reflexivity.
Defined.

(** C10 as stated fails: a selected item that ends before the page
    starts makes the horizontal factor negative, and so does a margin
    below [-1]. *)
Lemma zoom_shrinks :
  let data := [request script (-5); request other 10] in
  let r := (zoomToElements Rev2.config data (Some isScript) None).2 in
  Num.Math_max (map getXCoordinate (storeIndex data)) = Fin 10 /\
  Num.Math_max (map (getYCoordinate Rev2.config) (storeIndex data)) = Fin 12 /\
  List.filter isScript (storeIndex data) <> [] /\
  scaleX r = Fin (-2) /\ Num.le Num.one (scaleX r) = false /\
  scaleX (zoomToElements Rev2.config
            [request other 10; request script 12; request other 15]
            (Some isScript) (Some (Fin (-3)))).2 = Fin (-5 # 8).
Proof. repeat split; try reflexivity. discriminate. Qed.

Lemma zoom_magnifies_witness :
  let r := (zoomToElements Rev2.config
              [request other 10; request script 12; request other 15]
              (Some isScript) (Some (Fin (1 # 10)))).2 in
  Num.le Num.one (scaleX r) = true /\ Num.le Num.one (scaleY r) = true.
Proof.
  apply (zoom_magnifies Rev2.config _ isScript _ 12%Q 15%Q 24%Q (1 # 10)).
  - reflexivity.
  - reflexivity.
  - reflexivity.
  - reflexivity.
  - reflexivity.
  - reflexivity.
  - reflexivity.
  - discriminate.
Defined.

(** C2 as stated fails: an empty selection lies below every finite
    maximum and gives the factor zero, and for a selected item that
    ends before the page starts a larger margin gives a larger factor,
    both below [1]. *)
Lemma zoom_margin_not_clamped :
  let data := [request other 10; request other 20] in
  let r := (zoomToElements Rev2.config data (Some isScript) None).2 in
  let data' := [request script (-5); request other 10] in
  let r0 := (zoomToElements Rev2.config data' (Some isScript) None).2 in
  let r1 := (zoomToElements Rev2.config data' (Some isScript) (Some (Fin 1))).2 in
  Num.lt (Num.Math_max (map getXCoordinate (List.filter isScript (storeIndex data))))
         (Num.Math_max (map getXCoordinate (storeIndex data))) = true /\
  Num.le Num.one (scaleX r) = false /\
  Num.lt (Num.Math_max (map getXCoordinate (List.filter isScript (storeIndex data'))))
         (Num.Math_max (map getXCoordinate (storeIndex data'))) = true /\
  scaleX r0 = Fin (-2) /\ scaleX r1 = Fin (-1) /\
  Num.le (scaleX r1) (scaleX r0) = false /\
  Num.le Num.one (scaleX r0) = false.
Proof. repeat split; reflexivity. Qed.

Lemma zoom_margin_clamps_witness :
  let data := [request other 10; request script 12; request other 15] in
  let r1 := (zoomToElements Rev2.config data (Some isScript) None).2 in
  let r2 := (zoomToElements Rev2.config data (Some isScript) (Some (Fin (1 # 10)))).2 in
  (Num.le (scaleX r2) (scaleX r1) = true /\ Num.le Num.one (scaleX r2) = true) /\
  (Num.le (scaleY r2) (scaleY r1) = true /\ Num.le Num.one (scaleY r2) = true).
Proof.
  destruct (zoom_margin_clamps Rev2.config
              [request other 10; request script 12; request other 15]
              isScript None (Some (Fin (1 # 10))) 12%Q 0%Q (1 # 10))
    as (HX & HY & _); try reflexivity; try discriminate.
  split.
  - apply (HX 12%Q 15%Q); reflexivity.
  - apply (HY 12%Q 24%Q); reflexivity.
Defined.

End ZoomExamples.

(** ** Strings: occurrences, [indexOf] and [substring] *)

Section StringFacts.

Lemma append_nil_l (s : string) : "" +:+ s = s.
Proof. reflexivity. Qed.

Lemma append_cons (a : ascii) (s t : string) :
  String a s +:+ t = String a (s +:+ t).
Proof. reflexivity. Qed.

Lemma append_assoc (a b c : string) : (a +:+ b) +:+ c = a +:+ b +:+ c.
Proof.
  induction a as [|x a IH]; [done|]. rewrite !append_cons. by f_equal.
Qed.

Lemma append_length (a b : string) :
  String.length (a +:+ b) = (String.length a + String.length b)%nat.
Proof.
  induction a as [|x a IH]; [done|]. rewrite append_cons. simpl. by f_equal.
Qed.

Lemma prefix_spec (pat s : string) :
  String.prefix pat s = true <-> exists suf, s = pat +:+ suf.
Proof.
  revert s. induction pat as [|a pat IH]; intros s.
  - destruct s; simpl; split; eauto.
  - destruct s as [|b s]; simpl.
    + split; [done | intros [suf [=]]].
    + destruct (ascii_dec a b) as [->|Hne].
      * rewrite IH. split; intros [suf E]; exists suf.
        -- rewrite append_cons. congruence.
        -- rewrite append_cons in E. congruence.
      * split; [done | intros [suf E]]. rewrite append_cons in E. congruence.
Qed.

Lemma indexOf_from_eq (pat s : string) (i : Z) :
  Str.indexOf_from s pat i =
  if String.prefix pat s then i
  else match s with
       | EmptyString => (-1)%Z
       | String _ s' => Str.indexOf_from s' pat (i + 1)
       end.
Proof. by destruct s. Qed.

(** A failed search: the pattern occurs nowhere. *)
Lemma indexOf_from_none (pat s : string) : forall i,
  (0 <= i)%Z -> Str.indexOf_from s pat i = (-1)%Z -> ~ occurs pat s.
Proof.
  induction s as [|a s IH]; intros i Hi H (pre & suf & E);
    rewrite indexOf_from_eq in H.
  - destruct (String.prefix pat "") eqn:P; [lia|].
    destruct pre; [|discriminate]. rewrite append_nil_l in E.
    assert (String.prefix pat "" = true) by (apply prefix_spec; eauto).
    congruence.
  - destruct (String.prefix pat (String a s)) eqn:P; [lia|].
    destruct pre as [|b pre].
    + assert (String.prefix pat (String a s) = true)
        by (apply prefix_spec; eauto).
      congruence.
    + rewrite append_cons in E. injection E as -> E.
      apply (IH (i + 1)%Z); [lia | done |]. by exists pre, suf.
Qed.

(** A successful search: the pattern stands at the position found, and
    nowhere before it. *)
Lemma indexOf_from_found (pat s : string) : forall i n,
  (0 <= i)%Z -> Str.indexOf_from s pat i = n -> n <> (-1)%Z ->
  exists pre suf,
    s = pre +:+ pat +:+ suf /\ n = (i + Str.len pre)%Z /\
    forall pre' suf', s = pre' +:+ pat +:+ suf' ->
                      (String.length pre <= String.length pre')%nat.
Proof.
  induction s as [|a s IH]; intros i n Hi H Hn; rewrite indexOf_from_eq in H.
  - destruct (String.prefix pat "") eqn:P; [|congruence].
    apply prefix_spec in P as [suf E]. exists "", suf.
    split; [done|]. split; [unfold Str.len; simpl; lia|]. intros; simpl; lia.
  - destruct (String.prefix pat (String a s)) eqn:P.
    + apply prefix_spec in P as [suf E]. exists "", suf.
      split; [done|]. split; [unfold Str.len; simpl; lia|]. intros; simpl; lia.
    + destruct (IH (i + 1)%Z n) as (pre & suf & E & En & Hfirst); [lia|done|done|].
      exists (String a pre), suf. split; [rewrite append_cons; by rewrite <- E|].
      split; [unfold Str.len in *; simpl; lia|].
      intros [|b pre'] suf' E'.
      * assert (String.prefix pat (String a s) = true)
          by (apply prefix_spec; eauto).
        congruence.
      * rewrite append_cons in E'. injection E' as -> E'.
        simpl. apply le_n_S. by eapply Hfirst.
Qed.

Lemma indexOf_from_range (pat s : string) : forall i,
  (0 <= i)%Z ->
  Str.indexOf_from s pat i = (-1)%Z \/
  (i <= Str.indexOf_from s pat i <= i + Str.len s)%Z.
Proof.
  induction s as [|a s IH]; intros i Hi; rewrite indexOf_from_eq.
  - destruct (String.prefix pat ""); [right; unfold Str.len; simpl; lia | by left].
  - destruct (String.prefix pat (String a s)).
    + right. unfold Str.len; simpl; lia.
    + destruct (IH (i + 1)%Z) as [?|?]; [lia | by left |].
      right. unfold Str.len in *. simpl. lia.
Qed.

(** [indexOf] answers a position exactly when the pattern occurs. *)
Lemma indexOf_occurs (pat s : string) :
  (-1 <? Str.indexOf s pat)%Z = true <-> occurs pat s.
Proof.
  unfold Str.indexOf. rewrite Z.ltb_lt. split.
  - intros H.
    destruct (indexOf_from_found pat s 0 _ (Z.le_refl 0) eq_refl)
      as (pre & suf & E & _); [lia|]. by exists pre, suf.
  - intros Hocc. destruct (indexOf_from_range pat s 0) as [E|E]; [lia| |lia].
    by apply indexOf_from_none in E.
Qed.

Lemma substring_all (s : string) : String.substring 0 (String.length s) s = s.
Proof. induction s as [|a s IH]; simpl; [done | by rewrite IH]. Qed.

(** Cutting a string at any position loses nothing. *)
Lemma substring_split_nat (s : string) : forall n,
  (n <= String.length s)%nat ->
  String.substring 0 n s +:+ String.substring n (String.length s - n) s = s.
Proof.
  induction s as [|a s IH]; intros [|n] Hn.
  - done.
  - simpl in Hn. lia.
  - rewrite Nat.sub_0_r, substring_all. done.
  - simpl in Hn. simpl. rewrite append_cons. f_equal. apply IH. lia.
Qed.

Lemma substring_split (s : string) (i : Z) :
  Str.substring s 0 (Some i) +:+ Str.substring s i None = s.
Proof.
  unfold Str.substring, Str.clamp, Str.len.
  set (n := String.length s).
  set (c := Z.min (Z.max i 0) (Z.of_nat n)).
  assert (0 <= c <= Z.of_nat n)%Z by lia.
  replace (Z.min (Z.max 0 0) (Z.of_nat n)) with 0%Z by lia.
  replace (Z.min 0 c) with 0%Z by lia.
  replace (Z.max 0 c - 0)%Z with c by lia.
  replace (Z.min c (Z.of_nat n)) with c by lia.
  replace (Z.max c (Z.of_nat n) - c)%Z with (Z.of_nat n - c)%Z by lia.
  replace (Z.to_nat (Z.of_nat n - c)) with (n - Z.to_nat c)%nat by lia.
  apply substring_split_nat. fold n. lia.
Qed.

Lemma substring_prefix_nat (pre rest : string) :
  String.substring 0 (String.length pre) (pre +:+ rest) = pre.
Proof.
  induction pre as [|a pre IH]; [by destruct rest|].
  rewrite append_cons. simpl. by rewrite IH.
Qed.

Lemma append_inv_head (a b c : string) : a +:+ b = a +:+ c -> b = c.
Proof.
  induction a as [|x a IH]; [done|]. rewrite !append_cons.
  intros [= E]. by apply IH.
Qed.

End StringFacts.

(** ** Classification of MIME types *)

Section Classification.

Lemma firstMatch_functional mimeType l t t' :
  firstMatch mimeType l t -> firstMatch mimeType l t' -> t = t'.
Proof.
  induction 1 as [|kw t rest Hocc|kw t rest t1 Hno _ IH];
    inversion 1; subst; try done. by apply IH.
Qed.

Lemma mimeToFiletype_firstMatch mimeType :
  firstMatch mimeType priority (mimeToFiletype mimeType).
Proof.
  unfold mimeToFiletype, priority.
  repeat match goal with
  | |- context [(-1 <? Str.indexOf mimeType ?kw)%Z] =>
      let E := fresh "E" in
      destruct (-1 <? Str.indexOf mimeType kw)%Z eqn:E;
      [ apply firstMatch_here; by apply indexOf_occurs
      | apply firstMatch_later;
        [ rewrite <- indexOf_occurs; congruence | ] ]
  end.
  constructor.
Qed.

(** C9.  The type is decided by the first of the keywords [image],
    [script], [css] (giving [style]) and [font], in this order, that
    occurs in the MIME type, and is [other] when none occurs; so
    ["image/png"] is an image, ["application/javascript"] a script, and an
    empty or missing MIME type gives [other]. *)
Theorem mimeToFiletype_first_match :
  (forall mimeType t,
     firstMatch mimeType priority t <-> mimeToFiletype mimeType = t) /\
  mimeToFiletype "image/png" = image /\
  mimeToFiletype "application/javascript" = script /\
  mimeToFiletype (mimeOrEmpty (Some "")) = other /\
  mimeToFiletype (mimeOrEmpty None) = other.
Proof.
  split; [|repeat split; reflexivity].
  intros mimeType t. split.
  - intros H. eapply firstMatch_functional; [apply mimeToFiletype_firstMatch | done].
  - intros <-. apply mimeToFiletype_firstMatch.
Qed.

End Classification.

(** ** Tags *)

Section Tags.

(** The second revision binds every configured name. *)
Lemma getFileTags2_fmap (config : Config Rev2.tagRule) (entry : item) :
  Rev2.getFileTags config entry
  = (fun rule => Boolean (match rule with
                          | Rev2.Filter f => f
                          | Rev2.Pattern regex => Rev2.getMatchFunction regex
                          end entry)) <$> fileTags config.
Proof.
  unfold Rev2.getFileTags.
  apply (map_fold_weak_ind (fun r m => r = _ <$> m)).
  - by rewrite fmap_empty.
  - intros name rule m r _ ->. by rewrite fmap_insert.
Qed.

Lemma getFileTags2_dom (config : Config Rev2.tagRule) (entry : item) :
  dom (Rev2.getFileTags config entry) = dom (fileTags config).
Proof. rewrite getFileTags2_fmap. apply dom_fmap_L. Qed.

(** The first revision binds the names whose expression matches. *)
Lemma getFileTags1_lookup (config : Config RegExp) (u name : string) :
  Rev1.getFileTags config u !! name
  = match fileTags config !! name with
    | Some regex => if test regex u then Some true else None
    | None => None
    end.
Proof.
  unfold Rev1.getFileTags.
  apply (map_fold_weak_ind
           (fun r m => r !! name = match m !! name with
                                   | Some regex => if test regex u then Some true else None
                                   | None => None
                                   end)).
  - by rewrite !lookup_empty.
  - intros i regex m r Hi IH.
    destruct (decide (i = name)) as [->|Hne].
    + rewrite lookup_insert_eq. rewrite Hi in IH.
      destruct (test regex u); [by rewrite lookup_insert_eq | done].
    + rewrite (lookup_insert_ne m) by done. rewrite <- IH.
      destruct (test regex u); [by rewrite lookup_insert_ne | done].
Qed.

End Tags.

(** ** The normaliser *)

Section Normalizer.

Context (config : Config Rev2.tagRule).

Lemma filter_map_comm {A B} (f : A -> B) (p : B -> bool) (l : list A) :
  List.filter p (map f l) = map f (List.filter (fun x => p (f x)) l).
Proof.
  induction l as [|x l IH]; [done|]. simpl.
  destruct (p (f x)); simpl; by rewrite IH.
Qed.

Lemma scopeToFirstPage_single harLog first :
  pages harLog = [first] -> scopeToFirstPage harLog first = harLog.
Proof. intros E. unfold scopeToFirstPage. by rewrite E. Qed.

(** What the call returns for a document that has a page. *)
Lemma normalize_unfold harData first rest :
  pages (log harData) = first :: rest ->
  (Rev2.getRequestsFromHar config harData).2
  = Some (map (fun e => Rev2.addTags config (toItem (page_startedDateTime first) e))
            (List.filter
               (fun e => Num.le (Num.sub (entry_startedDateTime e)
                                         (page_startedDateTime first))
                                (pageTimings_onLoad first))
               (entries (scopeToFirstPage (log harData) first)))).
Proof.
  intros E. unfold Rev2.getRequestsFromHar. rewrite E. simpl.
  by rewrite map_map, filter_map_comm.
Qed.

Lemma normalize_item harData items d :
  (Rev2.getRequestsFromHar config harData).2 = Some items -> d ∈ items ->
  exists first rest e,
    pages (log harData) = first :: rest /\
    e ∈ entries (scopeToFirstPage (log harData) first) /\
    d = Rev2.addTags config (toItem (page_startedDateTime first) e).
Proof.
  intros H Hd. destruct (pages (log harData)) as [|first rest] eqn:E.
  { unfold Rev2.getRequestsFromHar in H. rewrite E in H. discriminate. }
  rewrite (normalize_unfold _ first rest E) in H. injection H as <-.
  apply list_elem_of_In, in_map_iff in Hd as (e & <- & He).
  apply filter_In in He as [He _].
  exists first, rest, e. by rewrite list_elem_of_In.
Qed.

Lemma scopeToFirstPage_entries harLog first e :
  e ∈ entries (scopeToFirstPage harLog first) -> e ∈ entries harLog.
Proof.
  unfold scopeToFirstPage. destruct (1 <? length (pages harLog))%nat; [|done].
  simpl. rewrite !list_elem_of_In. intros H. by apply filter_In in H as [H _].
Qed.

(** C6.  For a document with a single page the call returns, in the
    order of the capture, the items of exactly those entries that start
    no later than [onLoad] after the page: as many items as there are
    such entries, each carrying the URL of its entry. *)
Theorem normalize_keeps_entries_before_onLoad (harData : HarData) (first : page) :
  pages (log harData) = [first] ->
  let retained :=
    List.filter
      (fun e => Num.le (Num.sub (entry_startedDateTime e)
                                (page_startedDateTime first))
                       (pageTimings_onLoad first))
      (entries (log harData)) in
  exists items,
    (Rev2.getRequestsFromHar config harData).2 = Some items /\
    items = map (fun e => Rev2.addTags config (toItem (page_startedDateTime first) e)) retained /\
    map originalUrl items = map request_url retained /\
    length items = length retained.
Proof.
  intros E retained. eexists. split; [|split; [reflexivity|]].
  - rewrite (normalize_unfold _ first [] E).
    by rewrite scopeToFirstPage_single.
  - split; [by rewrite map_map | by rewrite length_map].
Qed.

(** The cut of a string at the first occurrence of a pattern. *)
Lemma split_at_first (pat u : string) :
  (0 < String.length pat)%nat ->
  let dom := Str.substring u 0 (Some (Str.indexOf u pat)) in
  let rest := Str.substring u (Str.indexOf u pat) None in
  u = dom +:+ rest /\
  ~ occurs pat dom /\
  (occurs pat u -> String.prefix pat rest = true) /\
  (~ occurs pat u -> dom = "" /\ rest = u).
Proof.
  intros Hpat dom rest.
  assert (u = dom +:+ rest) as Hsplit by (symmetry; apply substring_split).
  assert (~ occurs pat "") as Hempty.
  { intros (pre & suf & E). apply (f_equal String.length) in E.
    rewrite !append_length in E. simpl in E. lia. }
  destruct (Z.eq_dec (Str.indexOf u pat) (-1)%Z) as [Hnone|Hsome].
  - assert (dom = "") as Hdom.
    { subst dom. rewrite Hnone. unfold Str.substring, Str.clamp, Str.len.
      replace (Z.min (Z.max 0 0) _) with 0%Z by lia.
      replace (Z.min (Z.max (-1) 0) _) with 0%Z by lia. by destruct u. }
    assert (~ occurs pat u) as Hno
      by (apply (indexOf_from_none pat u 0); [lia | done]).
    split; [done|]. split; [by rewrite Hdom|]. split; [done|].
    intros _. split; [done|].
    transitivity (dom +:+ rest); [by rewrite Hdom | by symmetry].
  - destruct (indexOf_from_found pat u 0 _ (Z.le_refl 0) eq_refl Hsome)
      as (pre & suf & E & Hn & Hfirst).
    fold (Str.indexOf u pat) in Hn.
    assert (dom = pre) as Hdom.
    { subst dom. rewrite Hn. unfold Str.substring, Str.clamp.
      assert (Str.len pre <= Str.len u)%Z.
      { unfold Str.len. rewrite E, append_length. lia. }
      assert (0 <= Str.len pre)%Z by (unfold Str.len; lia).
      replace (Z.min (Z.max 0 0) _) with 0%Z by lia.
      replace (Z.min (Z.max (0 + Str.len pre) 0) _) with (Str.len pre) by lia.
      replace (Z.min 0 (Str.len pre)) with 0%Z by lia.
      replace (Z.max 0 (Str.len pre) - 0)%Z with (Str.len pre) by lia.
      unfold Str.len. rewrite Nat2Z.id. simpl.
      rewrite E. apply substring_prefix_nat. }
    assert (rest = pat +:+ suf) as Hrest.
    { apply (append_inv_head pre). rewrite <- E, <- Hdom. done. }
    split; [done|]. split; [|split].
    + rewrite Hdom. intros (a & b & Epre).
      specialize (Hfirst a (b +:+ pat +:+ suf)).
      rewrite E, Epre, !append_assoc in Hfirst. specialize (Hfirst eq_refl).
      rewrite !append_length in Hfirst. lia.
    + intros _. rewrite Hrest. apply prefix_spec. eauto.
    + intros Hno. exfalso. apply Hno. by exists pre, suf.
Qed.

(** C7.  The abbreviated URL of every item that the call returns is its
    [domain] followed by its [path]; the cut falls at the first slash: the
    domain holds none, the path starts with it, and a URL without a slash
    is all path. *)
Theorem url_is_domain_then_path (harData : HarData) (items : list item) (d : item) :
  (Rev2.getRequestsFromHar config harData).2 = Some items -> d ∈ items ->
  url d = domain d +:+ path d /\
  ~ occurs "/" (domain d) /\
  (occurs "/" (url d) -> String.prefix "/" (path d) = true) /\
  (~ occurs "/" (url d) -> domain d = "" /\ path d = url d).
Proof.
  intros H Hd.
  destruct (normalize_item _ _ _ H Hd) as (first & rest & e & _ & _ & ->).
  apply (split_at_first "/"). simpl. lia.
Qed.

(** C8.  For every item that the call returns, [end] is the rounding of
    [start + duration], where [start] is the start of its entry less the
    start of the page and [duration] is the [time] of the entry. *)
Theorem end_is_rounded_sum (harData : HarData) (first : page) (rest : list page)
    (items : list item) (d : item) :
  pages (log harData) = first :: rest ->
  (Rev2.getRequestsFromHar config harData).2 = Some items -> d ∈ items ->
  end_ d = Num.Math_round (Num.add (start d) (duration d)) /\
  exists e, e ∈ entries (log harData) /\
    start d = Num.sub (entry_startedDateTime e) (page_startedDateTime first) /\
    duration d = time e.
Proof.
  intros E H Hd.
  destruct (normalize_item _ _ _ H Hd) as (first' & rest' & e & E' & He & ->).
  rewrite E in E'. injection E' as <- <-.
  split; [done|]. exists e. split; [|done].
  by eapply scopeToFirstPage_entries.
Qed.

End Normalizer.

(** ** Tags and effects of the two revisions *)

Section Revisions.

(** The part of [Rev1.getRequestsFromHar] before the first-party flags. *)
Lemma normalize1_unfold RegExp_new (config : Config RegExp) harData first rest :
  pages (log harData) = first :: rest ->
  let harLog := scopeToFirstPage (log harData) first in
  let items :=
    List.filter
      (fun item => Num.le (start item) (pageTimings_onLoad first))
      (map (fun entry =>
              set_tags (Rev1.getFileTags config
                          (url (toItem (page_startedDateTime first) entry)))
                       (toItem (page_startedDateTime first) entry))
           (entries harLog)) in
  Rev1.getRequestsFromHar RegExp_new config harData =
  match items with
  | [] => Rev1.mkOutcome config {| log := harLog |} [(0%nat, "total requests")] None
  | d :: _ =>
      let config' :=
        {| firstPartyWhitelist := firstPartyWhitelist config ++ [domain d];
           fileTags := fileTags config;
           itemHeight := itemHeight config;
           itemMargin := itemMargin config |} in
      Rev1.mkOutcome config' {| log := harLog |}
        [(length items, "total requests")]
        (match RegExp_new (Rev1.firstPartySource (firstPartyWhitelist config')) with
         | None => None
         | Some firstPartyRegex =>
             Some (map (fun entry =>
                          let fp := test firstPartyRegex (domain entry) in
                          set_firstParty_stats fp
                            (fp && (Str.indexOf (path entry) "/stats/" =? 0)%Z) entry)
                       items)
         end)
  end.
Proof.
  intros E harLog items. unfold Rev1.getRequestsFromHar. rewrite E.
  fold harLog. cbv zeta. fold items.
  destruct items as [|d items']; [done|]. simpl.
  by destruct (RegExp_new _).
Qed.

Lemma scopeToFirstPage_pages harLog first :
  pages (scopeToFirstPage harLog first) = pages harLog.
Proof. unfold scopeToFirstPage. by destruct (1 <? _)%nat. Qed.

Lemma scopeToFirstPage_entries_eq harLog first rest :
  pages harLog = first :: rest ->
  entries (scopeToFirstPage harLog first)
  = match rest with
    | _ :: _ => List.filter (fun e => bool_decide (pageref e = id first))
                            (entries harLog)
    | [] => entries harLog
    end.
Proof.
  intros E. unfold scopeToFirstPage. rewrite E.
  by destruct rest as [|second rest].
Qed.

(** C3, amended.  In the second revision the [tags] of every item that
    the call returns bind exactly the configured tag names, each to a
    boolean.  In the first revision they bind exactly the names whose
    expression matches the abbreviated URL, each to [true], and leave the
    other configured names out. *)
Theorem tags_bind_configured_names :
  (forall (config : Config Rev2.tagRule) (harData : HarData),
     match (Rev2.getRequestsFromHar config harData).2 with
     | Some items =>
         Forall (fun d => exists t : gmap string bool,
                            tags d = Some t /\ dom t = dom (fileTags config))
                items
     | None => True
     end) /\
  (forall RegExp_new (config : Config RegExp) (harData : HarData),
     match Rev1.returned (Rev1.getRequestsFromHar RegExp_new config harData) with
     | Some items =>
         Forall (fun d => exists t : gmap string bool,
                   tags d = Some t /\
                   forall name,
                     t !! name = match fileTags config !! name with
                                 | Some regex =>
                                     if test regex (url d) then Some true else None
                                 | None => None
                                 end)
                items
     | None => True
     end).
Proof.
  split.
  - intros config harData.
    destruct (Rev2.getRequestsFromHar config harData).2 as [items|] eqn:H; [|done].
    apply Forall_forall. intros d Hd.
    destruct (normalize_item config _ _ _ H Hd) as (first & rest & e & _ & _ & ->).
    eexists. split; [reflexivity|]. apply getFileTags2_dom.
  - intros RegExp_new config harData.
    destruct (pages (log harData)) as [|first rest] eqn:E.
    { unfold Rev1.getRequestsFromHar. by rewrite E. }
    rewrite (normalize1_unfold RegExp_new config harData first rest E).
    cbv zeta. set (items := List.filter _ _).
    assert (Forall (fun d => tags d = Some (Rev1.getFileTags config (url d))) items)
      as Hitems.
    { apply Forall_forall. intros d Hd. subst items.
      apply list_elem_of_In, filter_In in Hd as [Hd _].
      by apply in_map_iff in Hd as (e & <- & _). }
    destruct items as [|d0 items']; [done|].
    cbn [Rev1.returned]. destruct (RegExp_new _) as [re|]; [|done].
    apply Forall_forall. intros d Hd.
    apply list_elem_of_In, in_map_iff in Hd as (d' & <- & Hd').
    rewrite Forall_forall in Hitems.
    exists (Rev1.getFileTags config (url d')). split.
    + exact (Hitems d' (proj2 (list_elem_of_In _ _) Hd')).
    + intros name. exact (getFileTags1_lookup config (url d') name).
Qed.

(** C4, amended.  A call leaves the pages of the document alone and
    overwrites its entries with those of the first page when there are
    several pages; the entries of a document with a single page stay as
    they are.  The second revision touches nothing else.  The first
    revision, whenever it returns, has also written the number of items to
    the console and appended the domain of the first item to the
    first-party whitelist; the rest of the configuration stays as it
    is. *)
Theorem normalize_effects :
  (forall (config : Config Rev2.tagRule) (harData : HarData),
     let after := (Rev2.getRequestsFromHar config harData).1 in
     pages (log after) = pages (log harData) /\
     entries (log after)
     = match pages (log harData) with
       | first :: _ :: _ =>
           List.filter (fun e => bool_decide (pageref e = id first))
                       (entries (log harData))
       | _ => entries (log harData)
       end) /\
  (forall RegExp_new (config : Config RegExp) (harData : HarData),
     let r := Rev1.getRequestsFromHar RegExp_new config harData in
     pages (log (Rev1.harData_after r)) = pages (log harData) /\
     entries (log (Rev1.harData_after r))
     = match pages (log harData) with
       | first :: _ :: _ =>
           List.filter (fun e => bool_decide (pageref e = id first))
                       (entries (log harData))
       | _ => entries (log harData)
       end /\
     fileTags (Rev1.config_after r) = fileTags config /\
     itemHeight (Rev1.config_after r) = itemHeight config /\
     itemMargin (Rev1.config_after r) = itemMargin config /\
     match Rev1.returned r with
     | Some items =>
         Rev1.console r = [(length items, "total requests")] /\
         exists d, head items = Some d /\
           firstPartyWhitelist (Rev1.config_after r)
           = firstPartyWhitelist config ++ [domain d]
     | None =>
         firstPartyWhitelist (Rev1.config_after r) = firstPartyWhitelist config \/
         exists name,
           firstPartyWhitelist (Rev1.config_after r)
           = firstPartyWhitelist config ++ [name]
     end).
Proof.
  split.
  - intros config harData after. subst after.
    unfold Rev2.getRequestsFromHar.
    destruct (pages (log harData)) as [|first rest] eqn:E; [done|]. simpl.
    rewrite scopeToFirstPage_pages, (scopeToFirstPage_entries_eq _ first rest E).
    split; [done | by destruct rest].
  - intros RegExp_new config harData r. subst r.
    destruct (pages (log harData)) as [|first rest] eqn:E.
    { unfold Rev1.getRequestsFromHar. rewrite E. simpl. rewrite E. auto 10. }
    rewrite (normalize1_unfold RegExp_new config harData first rest E).
    cbv zeta. set (items := List.filter _ _).
    pose proof (scopeToFirstPage_pages (log harData) first) as Hp.
    pose proof (scopeToFirstPage_entries_eq (log harData) first rest E) as He.
    rewrite E in Hp.
    assert (entries (scopeToFirstPage (log harData) first)
            = match rest with
              | [] => entries (log harData)
              | _ :: _ => List.filter (fun e => bool_decide (pageref e = id first))
                                      (entries (log harData))
              end) as He' by (rewrite He; by destruct rest).
    destruct items as [|d0 items']; [simpl; auto 10|].
    cbn [Rev1.harData_after Rev1.config_after Rev1.returned Rev1.console
         log fileTags itemHeight itemMargin firstPartyWhitelist].
    repeat (split; [done|]).
    destruct (RegExp_new _) as [re|]; [|eauto].
    split; [by rewrite length_map|]. exists (set_firstParty_stats
      (test re (domain d0))
      (test re (domain d0) && (Str.indexOf (path d0) "/stats/" =? 0)%Z) d0).
    done.
Qed.

End Revisions.

(** *** The normaliser on concrete captures *)

Section NormalizerExamples.

Import Sample.

(** A request that starts 500 ms into the page and takes 200 ms. *)
Example normalize_onePage :
  (Rev2.getRequestsFromHar Rev2.config onePage).2
  = Some
      [ Rev2.addTags Rev2.config
          {| tags := None; type := script;
             originalUrl := "https://www.example.com/a/b?x=1#y";
             url := "example.com/a/b"; domain := "example.com"; path := "/a/b";
             start := Fin 500; duration := Fin 200; end_ := Fin 700;
             firstParty := None; stats := None; index := None |};
        Rev2.addTags Rev2.config
          {| tags := None; type := other;
             originalUrl := "http://cdn.kinja-img.com/javascripts-min/layer/Main.JS";
             url := "cdn.kinja-img.com/javascripts-min/layer/Main.JS";
             domain := "cdn.kinja-img.com";
             path := "/javascripts-min/layer/Main.JS";
             start := Fin 990; duration := Fin (61 # 2); end_ := Fin 1021;
             firstParty := None; stats := None; index := None |} ].
Proof. reflexivity. Qed.

Example tags_of_main_script :
  Rev2.getFileTags Rev2.config
    (toItem (page_startedDateTime page1) entry2)
  = <["scriptLoader" := false]> (<["mainScript" := true]>
    (<["firstParty" := true]> (<["stats" := false]> ∅))).
Proof. by vm_compute. Qed.

Lemma normalize_keeps_entries_before_onLoad_witness :
  exists items,
    (Rev2.getRequestsFromHar Rev2.config onePage).2 = Some items /\
    map originalUrl items = [request_url entry1; request_url entry2] /\
    length items = 2%nat.
Proof.
  destruct (normalize_keeps_entries_before_onLoad Rev2.config onePage page1 eq_refl)
    as (items & H & _ & Hurls & Hlen).
  exists items. split; [exact H|]. split; [exact Hurls | exact Hlen].
Defined.

Lemma url_is_domain_then_path_witness :
  "example.com/a/b" = "example.com" +:+ "/a/b" /\ ~ occurs "/" "example.com".
Proof.
  destruct (url_is_domain_then_path Rev2.config onePage
              (default [] (Rev2.getRequestsFromHar Rev2.config onePage).2)
              (Rev2.addTags Rev2.config (toItem (page_startedDateTime page1) entry1))
              eq_refl)
    as (Hurl & Hdom & _).
  - by left.
  - split; [exact Hurl | exact Hdom].
Defined.

Lemma end_is_rounded_sum_witness :
  Fin 1021 = Num.Math_round (Num.add (Fin 990) (Fin (61 # 2))).
Proof.
  destruct (end_is_rounded_sum Rev2.config onePage page1 []
              (default [] (Rev2.getRequestsFromHar Rev2.config onePage).2)
              (Rev2.addTags Rev2.config (toItem (page_startedDateTime page1) entry2))
              eq_refl eq_refl)
    as (Hend & _).
  - right. by left.
  - exact Hend.
Defined.

(** C3 as stated fails in the first revision: a URL that matches none of
    the configured expressions gets no tag at all, and so does the first
    item of the sample capture, whatever the engine. *)
Lemma tags_of_unmatched_url_are_empty :
  Rev1.getFileTags Rev1.config (urlAbbreviate (request_url entry1)) = ∅ /\
  dom (Rev1.getFileTags Rev1.config (urlAbbreviate (request_url entry1)))
    <> dom (fileTags Rev1.config) /\
  (forall RegExp_new items,
     Rev1.returned (Rev1.getRequestsFromHar RegExp_new Rev1.config onePage)
       = Some items ->
     exists d, head items = Some d /\ tags d = Some ∅).
Proof.
  assert (Rev1.getFileTags Rev1.config (urlAbbreviate (request_url entry1)) = ∅)
    as E by (by vm_compute).
  split; [done|]. split.
  - rewrite E. intros H.
    assert ("scriptLoader" ∈ dom (fileTags Rev1.config)) as Hin.
    { apply elem_of_dom. by eexists. }
    rewrite <- H in Hin. by apply not_elem_of_empty in Hin.
  - intros RegExp_new items.
    rewrite (normalize1_unfold RegExp_new Rev1.config onePage page1 [] eq_refl).
    cbv zeta. set (retained := List.filter _ _).
    assert (exists d rest, retained = d :: rest /\ tags d = Some ∅)
      as (d & rest & -> & Hd) by (vm_compute; eauto).
    cbn [Rev1.returned]. destruct (RegExp_new _) as [re|]; [|done].
    intros [= <-]. eexists. split; [reflexivity | exact Hd].
Qed.

Example tags_of_matched_url :
  Rev1.getFileTags Rev1.config (urlAbbreviate (request_url entry2))
  = {["mainScript" := true]}.
Proof. by vm_compute. Qed.

(** C4 as stated fails: the call on a capture of two pages leaves it with
    the entries of the first page only. *)
Lemma normalize_overwrites_entries :
  entries (log twoPages) = [entry1; entry2; entry3] /\
  entries (log (Rev2.getRequestsFromHar Rev2.config twoPages).1) = [entry1; entry3] /\
  (Rev2.getRequestsFromHar Rev2.config twoPages).1 <> twoPages.
Proof.
  split; [reflexivity|]. split; [reflexivity|]. intros H.
  apply (f_equal (fun h => length (entries (log h)))) in H.
  vm_compute in H. discriminate.
Qed.

(** Whatever the engine, the first revision grows the whitelist. *)
Example whitelist_grows RegExp_new :
  firstPartyWhitelist
    (Rev1.config_after (Rev1.getRequestsFromHar RegExp_new Rev1.config onePage))
  = ["kinja.com"; "kinja-img.com"; "kinja-static.com"; "example.com"].
Proof.
  rewrite (normalize1_unfold RegExp_new Rev1.config onePage page1 [] eq_refl).
  cbv zeta.
  set (items := List.filter _ _).
  assert (exists d rest, items = d :: rest /\ domain d = "example.com")
    as (d & rest & -> & Hd) by (vm_compute; eauto).
  simpl. by rewrite Hd.
Qed.

End NormalizerExamples.

(** ** More on the normaliser *)

Section NormalizerMore.

Lemma filter_filter_same {A} (p : A -> bool) (l : list A) :
  List.filter p (List.filter p l) = List.filter p l.
Proof.
  induction l as [|x l IH]; [done|]. simpl.
  destruct (p x) eqn:E; simpl; [by rewrite E, IH | done].
Qed.

Lemma scopeToFirstPage_twice harLog first :
  scopeToFirstPage (scopeToFirstPage harLog first) first
  = scopeToFirstPage harLog first.
Proof.
  unfold scopeToFirstPage at 1. rewrite scopeToFirstPage_pages.
  unfold scopeToFirstPage.
  destruct (1 <? length (pages harLog))%nat; [|done].
  simpl. by rewrite filter_filter_same.
Qed.

(** The entries that a call keeps: those of the first page, when there
    are several pages, that start no later than [onLoad]. *)
Lemma normalize_unfold_pages (config : Config Rev2.tagRule) harData first rest :
  pages (log harData) = first :: rest ->
  Rev2.getRequestsFromHar config harData
  = ({| log := scopeToFirstPage (log harData) first |},
     Some (map (fun e => Rev2.addTags config (toItem (page_startedDateTime first) e))
             (List.filter
                (fun e => Num.le (Num.sub (entry_startedDateTime e)
                                          (page_startedDateTime first))
                                 (pageTimings_onLoad first))
                (entries (scopeToFirstPage (log harData) first))))).
Proof.
  intros E. unfold Rev2.getRequestsFromHar. rewrite E. cbv zeta.
  by rewrite map_map, filter_map_comm.
Qed.

(** X1.  Whatever the number of pages, the call returns, in the order of
    the capture, the items of the entries that start no later than
    [onLoad] after the first page and, when there are several pages, refer
    to the first page; without a page it fails and leaves the document as
    it is. *)
Theorem normalize_first_page_only (config : Config Rev2.tagRule) (harData : HarData) :
  Rev2.getRequestsFromHar config harData =
  match pages (log harData) with
  | [] => (harData, None)
  | first :: rest =>
      let ofFirstPage e :=
        match rest with
        | [] => true
        | _ :: _ => bool_decide (pageref e = id first)
        end in
      let inTime e :=
        Num.le (Num.sub (entry_startedDateTime e) (page_startedDateTime first))
               (pageTimings_onLoad first) in
      ({| log := {| pages := pages (log harData);
                    entries := List.filter ofFirstPage (entries (log harData)) |} |},
       Some (map (fun e => Rev2.addTags config (toItem (page_startedDateTime first) e))
               (List.filter (fun e => ofFirstPage e && inTime e)
                            (entries (log harData)))))
  end.
Proof.
  destruct (pages (log harData)) as [|first rest] eqn:E.
  { unfold Rev2.getRequestsFromHar. by rewrite E. }
  rewrite (normalize_unfold_pages config harData first rest E). cbv zeta.
  assert (forall {A} (p q : A -> bool) (l : list A),
             List.filter q (List.filter p l) = List.filter (fun x => p x && q x) l)
    as Hff.
  { intros A p q l. induction l as [|x l IH]; [done|]. simpl.
    destruct (p x); simpl; [destruct (q x); by rewrite IH | done]. }
  unfold scopeToFirstPage. rewrite E.
  destruct rest as [|second rest]; simpl.
  - rewrite (filter_all (fun _ => true)) by done.
    destruct harData as [[ps es]]. simpl in *. by subst ps.
  - by rewrite Hff.
Qed.

(** X2.  A second call on the document that a call has left behind
    returns the same items and leaves that document as it is. *)
Theorem normalize_twice (config : Config Rev2.tagRule) (harData : HarData) :
  Rev2.getRequestsFromHar config (Rev2.getRequestsFromHar config harData).1
  = Rev2.getRequestsFromHar config harData.
Proof.
  destruct (pages (log harData)) as [|first rest] eqn:E.
  { unfold Rev2.getRequestsFromHar. rewrite E. simpl. by rewrite E. }
  rewrite (normalize_unfold_pages config harData first rest E). simpl.
  rewrite (normalize_unfold_pages config _ first rest).
  - simpl. by rewrite scopeToFirstPage_twice.
  - simpl. by rewrite scopeToFirstPage_pages.
Qed.

(** X3.  No item that the call returns starts later than [onLoad] after
    the first page, and none has a start that is not a number: an entry
    whose date does not parse is dropped. *)
Theorem returned_items_start_in_time (config : Config Rev2.tagRule)
    (harData : HarData) (first : page) (rest : list page)
    (items : list item) (d : item) :
  pages (log harData) = first :: rest ->
  (Rev2.getRequestsFromHar config harData).2 = Some items -> d ∈ items ->
  Num.le (start d) (pageTimings_onLoad first) = true /\ start d <> NaN.
Proof.
  intros E H Hd.
  rewrite (normalize_unfold_pages config harData first rest E) in H.
  injection H as <-.
  apply list_elem_of_In, in_map_iff in Hd as (e & <- & He).
  apply filter_In in He as [_ He]. split; [exact He|].
  intros Hnan. change (start (Rev2.addTags config (toItem (page_startedDateTime first) e)))
    with (Num.sub (entry_startedDateTime e) (page_startedDateTime first)) in Hnan.
  by rewrite Hnan in He.
Qed.

End NormalizerMore.

(** ** The two revisions side by side *)

Section RevisionsMore.

Variable RegExp_new : string -> option RegExp.

(** The first revision in terms of the entries that it keeps. *)
Lemma normalize1_entries (config : Config RegExp) harData first rest :
  pages (log harData) = first :: rest ->
  let startDate := page_startedDateTime first in
  let harLog := scopeToFirstPage (log harData) first in
  let kept :=
    List.filter
      (fun e => Num.le (Num.sub (entry_startedDateTime e) startDate)
                       (pageTimings_onLoad first))
      (entries harLog) in
  let build e :=
    set_tags (Rev1.getFileTags config (url (toItem startDate e)))
             (toItem startDate e) in
  Rev1.getRequestsFromHar RegExp_new config harData =
  match kept with
  | [] => Rev1.mkOutcome config {| log := harLog |} [(0%nat, "total requests")] None
  | e0 :: _ =>
      let config' :=
        {| firstPartyWhitelist :=
             firstPartyWhitelist config ++ [domain (toItem startDate e0)];
           fileTags := fileTags config;
           itemHeight := itemHeight config;
           itemMargin := itemMargin config |} in
      Rev1.mkOutcome config' {| log := harLog |}
        [(length kept, "total requests")]
        (match RegExp_new (Rev1.firstPartySource (firstPartyWhitelist config')) with
         | None => None
         | Some firstPartyRegex =>
             Some (map (fun e =>
                          let fp := test firstPartyRegex (domain (toItem startDate e)) in
                          set_firstParty_stats fp
                            (fp && (Str.indexOf (path (toItem startDate e)) "/stats/" =? 0)%Z)
                            (build e))
                       kept)
         end)
  end.
Proof.
  intros E startDate harLog kept build.
  rewrite (normalize1_unfold RegExp_new config harData first rest E). cbv zeta.
  fold startDate harLog. rewrite filter_map_comm.
  change (List.filter _ (entries harLog)) with kept.
  destruct kept as [|e0 kept']; [done|].
  cbn [map length domain set_tags]. rewrite length_map.
  destruct (RegExp_new _) as [re|]; [|done].
  by rewrite map_map.
Qed.

Lemma indexOf_zero_prefix (pat s : string) :
  (Str.indexOf s pat =? 0)%Z = String.prefix pat s.
Proof.
  unfold Str.indexOf. rewrite indexOf_from_eq.
  destruct (String.prefix pat s); [done|].
  destruct s as [|a s]; [done|].
  destruct (indexOf_from_range pat s (0 + 1)) as [->|H]; [lia | done |].
  apply Z.eqb_neq. lia.
Qed.

(** X4.  When the first revision returns, the second returns as well,
    whatever its tag rules; the two arrays have the same length and agree,
    item by item, on type, URLs, domain, path, start, duration and end,
    and both calls leave the same document behind. *)
Theorem revisions_agree_on_items (config1 : Config RegExp)
    (config2 : Config Rev2.tagRule) (harData : HarData) (items1 : list item) :
  Rev1.returned (Rev1.getRequestsFromHar RegExp_new config1 harData) = Some items1 ->
  let core (d : item) :=
    (type d, originalUrl d, url d, domain d, path d, start d, duration d, end_ d) in
  exists items2,
    (Rev2.getRequestsFromHar config2 harData).2 = Some items2 /\
    map core items1 = map core items2 /\
    Rev1.harData_after (Rev1.getRequestsFromHar RegExp_new config1 harData)
    = (Rev2.getRequestsFromHar config2 harData).1.
Proof.
  intros H core.
  destruct (pages (log harData)) as [|first rest] eqn:E.
  { unfold Rev1.getRequestsFromHar in H. rewrite E in H. discriminate. }
  rewrite (normalize1_entries config1 harData first rest E) in H |- *.
  rewrite (normalize_unfold_pages config2 harData first rest E).
  cbv zeta in *. destruct (List.filter _ _) as [|e0 kept]; [discriminate|].
  cbn [Rev1.returned Rev1.harData_after] in *.
  destruct (RegExp_new _) as [re|]; [|discriminate]. injection H as <-.
  eexists. split; [reflexivity|]. split; [|done].
  cbn [map]. f_equal. by rewrite !map_map.
Qed.

(** X5.  When the rules of the second revision are the expressions of the
    first, the tags of the first revision are the tags of the second that
    are [true]: a name bound to [false] there is left out here. *)
Theorem tags_of_revisions_agree (config1 : Config RegExp)
    (config2 : Config Rev2.tagRule) (entry : item) (name : string) :
  fileTags config2 = Rev2.Pattern <$> fileTags config1 ->
  Rev1.getFileTags config1 (url entry) !! name
  = match Rev2.getFileTags config2 entry !! name with
    | Some true => Some true
    | _ => None
    end.
Proof.
  intros H. rewrite getFileTags1_lookup, getFileTags2_fmap, lookup_fmap, H, lookup_fmap.
  destruct (fileTags config1 !! name) as [regex|]; [|done]. simpl.
  unfold Rev2.getMatchFunction. by destruct (test regex (url entry)).
Qed.

(** X6.  Every item that the first revision returns carries both flags,
    and [stats] is set exactly when [firstParty] is and the path begins
    with ["/stats/"]; so a request flagged [stats] is first-party. *)
Theorem stats_is_first_party (config : Config RegExp) (harData : HarData)
    (items : list item) (d : item) :
  Rev1.returned (Rev1.getRequestsFromHar RegExp_new config harData) = Some items ->
  d ∈ items ->
  exists fp st,
    firstParty d = Some fp /\ stats d = Some st /\
    st = fp && String.prefix "/stats/" (path d) /\
    (st = true -> fp = true).
Proof.
  intros H Hd.
  destruct (pages (log harData)) as [|first rest] eqn:E.
  { unfold Rev1.getRequestsFromHar in H. rewrite E in H. discriminate. }
  rewrite (normalize1_entries config harData first rest E) in H.
  cbv zeta in H. destruct (List.filter _ _) as [|e0 kept]; [discriminate|].
  cbn [Rev1.returned] in H.
  destruct (RegExp_new _) as [re|]; [|discriminate].
  apply (inj Some) in H. subst items.
  apply list_elem_of_In, in_map_iff in Hd as (e & <- & _).
  eexists _, _. split; [reflexivity|]. split; [reflexivity|].
  cbn [path set_firstParty_stats set_tags]. rewrite indexOf_zero_prefix.
  split; [done|]. by intros [? _]%andb_true_iff.
Qed.

(** X7.  The whitelist is not restored: a second call of the first
    revision, on the configuration and the document that a returning call
    has left behind, appends the domain of the first item once more. *)
Theorem whitelist_grows_with_every_call (config : Config RegExp)
    (harData : HarData) (items : list item) :
  let r1 := Rev1.getRequestsFromHar RegExp_new config harData in
  let r2 := Rev1.getRequestsFromHar RegExp_new
              (Rev1.config_after r1) (Rev1.harData_after r1) in
  Rev1.returned r1 = Some items ->
  exists d, head items = Some d /\
    firstPartyWhitelist (Rev1.config_after r2)
    = firstPartyWhitelist config ++ [domain d; domain d].
Proof.
  intros r1 r2 H. subst r1 r2.
  destruct (pages (log harData)) as [|first rest] eqn:E.
  { unfold Rev1.getRequestsFromHar in H. rewrite E in H. discriminate. }
  revert H.
  rewrite (normalize1_entries config harData first rest E). cbv zeta.
  destruct (List.filter _ _) as [|e0 kept] eqn:Ek; [discriminate|].
  cbn [Rev1.returned Rev1.harData_after Rev1.config_after].
  destruct (RegExp_new _) as [re|]; [|discriminate]. intros [= <-].
  eexists. split; [reflexivity|].
  rewrite (normalize1_entries _ _ first rest).
  2:{ cbn [log]. by rewrite scopeToFirstPage_pages. }
  cbv zeta. cbn [log]. rewrite scopeToFirstPage_twice, Ek.
  cbn [Rev1.config_after firstPartyWhitelist]. by rewrite <- app_assoc.
Qed.

(** X8.  Where the second revision returns an empty array, the first
    fails, before it touches the whitelist; where the second returns
    items, the first returns exactly when the engine accepts the
    expression built from the whitelist and the domain of the first
    item. *)
Theorem first_revision_needs_an_item (config1 : Config RegExp)
    (config2 : Config Rev2.tagRule) (harData : HarData) :
  let r1 := Rev1.getRequestsFromHar RegExp_new config1 harData in
  match (Rev2.getRequestsFromHar config2 harData).2 with
  | None => r1 = Rev1.mkOutcome config1 harData [] None
  | Some [] =>
      Rev1.returned r1 = None /\ Rev1.config_after r1 = config1 /\
      Rev1.console r1 = [(0%nat, "total requests")]
  | Some (d :: _) =>
      is_Some (Rev1.returned r1) <->
      is_Some (RegExp_new
                 (Rev1.firstPartySource (firstPartyWhitelist config1 ++ [domain d])))
  end.
Proof.
  intros r1. subst r1.
  destruct (pages (log harData)) as [|first rest] eqn:E.
  { unfold Rev2.getRequestsFromHar, Rev1.getRequestsFromHar. by rewrite E. }
  rewrite (normalize1_entries config1 harData first rest E).
  rewrite (normalize_unfold_pages config2 harData first rest E).
  cbv zeta. cbn [snd]. destruct (List.filter _ _) as [|e0 kept]; [done|].
  cbn [map Rev1.returned firstPartyWhitelist].
  change (domain (Rev2.addTags config2 (toItem (page_startedDateTime first) e0)))
    with (domain (toItem (page_startedDateTime first) e0)).
  destruct (RegExp_new _); split; intros [? ?]; try done; eauto.
Qed.

End RevisionsMore.

(** ** Abbreviated URLs *)

Section UrlFacts.

Lemma occurs_char_nil (c : ascii) : ~ occurs (String c "") "".
Proof.
  intros (pre & suf & E). apply (f_equal String.length) in E.
  rewrite !append_length in E. simpl in E. lia.
Qed.

Lemma occurs_char_cons (c a : ascii) (s : string) :
  occurs (String c "") (String a s) <-> a = c \/ occurs (String c "") s.
Proof.
  split.
  - intros ([|b pre] & suf & E).
    + rewrite append_nil_l, append_cons in E. injection E as -> _. by left.
    + rewrite append_cons in E. injection E as -> E. right. by exists pre, suf.
  - intros [->|(pre & suf & ->)].
    + by exists "", s.
    + by exists (String a pre), suf.
Qed.

(** The character that starts the matches is gone afterwards. *)
Lemma removeFrom_free (c : ascii) (s : string) : forall inMatch,
  Str.lineTerminator c = false ->
  ~ occurs (String c "") (Str.removeFrom c inMatch s).
Proof.
  induction s as [|a s IH]; intros inMatch Hc; [apply occurs_char_nil|].
  simpl. destruct inMatch.
  - destruct (Str.lineTerminator a) eqn:Ha; [|by apply IH].
    rewrite occurs_char_cons. intros [->|H]; [congruence | by apply IH in H].
  - destruct (Ascii.eqb a c) eqn:Hac; [by apply IH|].
    rewrite occurs_char_cons. intros [->|H]; [|by apply IH in H].
    by rewrite Ascii.eqb_refl in Hac.
Qed.

(** Nothing is put in: a character that was not there is not there
    afterwards. *)
Lemma removeFrom_keeps_free (c c' : ascii) (s : string) : forall inMatch,
  ~ occurs (String c' "") s ->
  ~ occurs (String c' "") (Str.removeFrom c inMatch s).
Proof.
  induction s as [|a s IH]; intros inMatch Hs; [done|].
  rewrite occurs_char_cons in Hs. simpl.
  destruct inMatch;
    [destruct (Str.lineTerminator a) | destruct (Ascii.eqb a c)];
    rewrite ?occurs_char_cons; intros H; try (destruct H as [H|H]);
    try (by apply Hs; left); by (eapply IH; [|exact H]; intros ?; apply Hs; right).
Qed.

(** X9.  No abbreviated URL holds a question mark or a hash sign. *)
Theorem urlAbbreviate_has_no_query (u : string) :
  ~ occurs "?" (urlAbbreviate u) /\ ~ occurs "#" (urlAbbreviate u).
Proof.
  unfold urlAbbreviate. split.
  - apply removeFrom_keeps_free. by apply removeFrom_free.
  - by apply removeFrom_free.
Qed.

(** The scheme is of no account, in whatever case it is written, and
    scheme and [www.] are taken off once: what follows them is not
    searched for a scheme again. *)
Remark urlAbbreviate_scheme (s : string) :
  urlAbbreviate ("https://" +:+ s) = urlAbbreviate ("http://" +:+ s) /\
  urlAbbreviate ("HTTP://" +:+ s) = urlAbbreviate ("http://" +:+ s) /\
  urlAbbreviate ("http://www." +:+ s)
  = Str.removeFrom "#" false (Str.removeFrom "?" false s).
Proof. repeat split; reflexivity. Qed.

End UrlFacts.

(** ** More on zooming *)

Section ZoomMore.

Context {rule : Type} (config : Config rule).

Local Open Scope Q_scope.

Lemma set_index_twice i j d : set_index i (set_index j d) = set_index i d.
Proof. reflexivity. Qed.

Lemma imap_set_index_twice (l : list item) : forall (g : nat -> nat),
  imap (fun i => set_index (g i)) (imap (fun i => set_index (g i)) l)
  = imap (fun i => set_index (g i)) l.
Proof.
  induction l as [|d l IH]; intros g; [done|]. simpl. f_equal.
  apply (IH (fun i => g (S i))).
Qed.

(** Writing the indices a second time changes nothing. *)
Lemma storeIndex_twice (data : list item) :
  storeIndex (storeIndex data) = storeIndex data.
Proof. apply (imap_set_index_twice data (fun i => i)). Qed.

(** X10.  The call writes into every item its position in the array and
    changes nothing else, and it keeps no other trace of itself: called
    again on the items that it returned, with the same filter and margin,
    it returns the same items and the same factors. *)
Theorem zoom_twice (data : list item) (filter : option (item -> bool))
    (margin : option number) :
  (forall i, (zoomToElements config data filter margin).1 !! i
             = set_index i <$> data !! i) /\
  zoomToElements config (zoomToElements config data filter margin).1 filter margin
  = zoomToElements config data filter margin.
Proof.
  split.
  - intros i. rewrite zoomToElements_unfold. cbv zeta. cbn [fst].
    unfold storeIndex. apply list_lookup_imap.
  - rewrite !zoomToElements_unfold. cbv zeta. cbn [fst].
    by rewrite storeIndex_twice.
Qed.

Lemma foldl_max2_NaN (l : list number) : foldl Num.max2 NaN l = NaN.
Proof. induction l as [|x l IH]; [done|]. simpl. exact IH. Qed.

Lemma Math_max_NaN (l : list number) : NaN ∈ l -> Num.Math_max l = NaN.
Proof.
  unfold Num.Math_max. generalize (Infinity true).
  induction l as [|x l IH]; intros a H; [by apply elem_of_nil in H|].
  apply elem_of_cons in H as [<-|H]; simpl.
  - destruct a; apply foldl_max2_NaN.
  - by apply IH.
Qed.

(** X11.  One item whose [end] is not a number makes the horizontal
    factor [NaN], whatever the filter and the margin; so does an empty
    array, on both axes. *)
Theorem zoom_not_a_number (data : list item) (filter : option (item -> bool))
    (margin : option number) :
  (data = [] ->
   (zoomToElements config data filter margin).2
   = {| scaleX := NaN; scaleY := NaN |}) /\
  ((exists d, d ∈ data /\ end_ d = NaN) ->
   scaleX (zoomToElements config data filter margin).2 = NaN).
Proof.
  split.
  - intros ->. reflexivity.
  - intros (d & Hd & Hnan). rewrite zoomToElements_unfold. cbv zeta. cbn [snd scaleX].
    rewrite getX_storeIndex, (Math_max_NaN (map end_ data)).
    + unfold fitAxis. by destruct (Num.Math_max _) as [|[]|].
    + rewrite <- Hnan. apply list_elem_of_In, in_map. by apply list_elem_of_In.
Qed.

Lemma Qred_zero_mul k : Qred (inject_Z (Z.of_nat 0) * k) = 0.
Proof. change 0 with (Qred 0). apply Qred_complete. simpl. ring. Qed.

(** X12.  When the filter accepts the first item and no other, of two
    items or more, the vertical factor is [+Infinity] for every margin
    from [-1] up: the ordinate of the first item is [0], and the overall
    maximum is divided by it. *)
Theorem zoom_first_item_only (d0 : item) (rest : list item) (f : item -> bool)
    (margin : option number) (k m : Q) :
  Num.add (itemHeight config) (itemMargin config) = Fin k -> 0 < k ->
  rest <> [] ->
  List.filter f (storeIndex (d0 :: rest)) = [set_index 0 d0] ->
  orZero margin = Fin m -> -1 <= m ->
  scaleY (zoomToElements config (d0 :: rest) (Some f) margin).2 = Infinity false.
Proof.
  intros Hk Hk0 Hrest Hsel Hm Hm1.
  rewrite zoomToElements_unfold. cbv zeta. cbn [snd scaleY]. rewrite Hsel, Hm.
  destruct (max_y_finite config k (d0 :: rest) Hk) as [qM HM]; [done|].
  assert (0 < qM) as HqM.
  { apply (max_y_positive config k (d0 :: rest) qM Hk Hk0); [|done].
    destruct rest; [done | simpl; lia]. }
  rewrite HM. cbn [map]. rewrite (getY_set_index config k) by done.
  rewrite Qred_zero_mul.
  change (Num.Math_max [Fin 0]) with (Fin 0).
  unfold fitAxis. rewrite (proj2 (lt_Fin 0 qM) HqM).
  destruct (clamp_Fin 0 qM m) as (qa & -> & Hqa0 & _ & [Hqa|[-> Hlt]]);
    try lra.
  apply div_zero; [|done]. rewrite Hqa. ring.
Qed.

(** The overall maximum on the vertical axis is the ordinate of the last
    item. *)
Lemma max_y_is_last k data q :
  Num.add (itemHeight config) (itemMargin config) = Fin k -> 0 < k ->
  Num.Math_max (map (getYCoordinate config) (storeIndex data)) = Fin q ->
  q = Qred (inject_Z (Z.of_nat (length data - 1)) * k).
Proof.
  intros Hk Hk0 Hq.
  pose proof (Math_max_elem _ _ Hq) as Hel.
  apply list_elem_of_In, in_map_iff in Hel as (d & Hd & Hin).
  apply list_elem_of_In, elem_of_storeIndex in Hin as (i & d0 & Hi & ->).
  rewrite (getY_set_index config k) in Hd by done. injection Hd as <-.
  pose proof (lookup_lt_Some _ _ _ Hi) as Hlt.
  destruct (lookup_lt_is_Some_2 data (length data - 1)%nat) as [dl Hdl]; [lia|].
  apply storeIndex_lookup in Hdl.
  assert (Num.le (getYCoordinate config (set_index (length data - 1) dl))
                 (Fin (Qred (inject_Z (Z.of_nat i) * k))) = true) as Hle.
  { apply (Math_max_upper _ _ _ Hq).
    apply list_elem_of_In, in_map, list_elem_of_In, Hdl. }
  rewrite (getY_set_index config k) in Hle by done.
  apply le_Fin in Hle. rewrite !Qred_correct in Hle.
  apply Qred_complete.
  assert (inject_Z (Z.of_nat i) <= inject_Z (Z.of_nat (length data - 1))) as Hi'
    by (rewrite <- Zle_Qle; lia).
  apply Qle_antisym; [|done].
  rewrite !(Qmult_comm _ k). apply Qmult_le_l; done.
Qed.

(** X13.  When the filter accepts the last item, of two items or more,
    the vertical factor is [1] whatever the margin: the selection reaches
    the bottom, and nothing is added below it. *)
Theorem zoom_last_item_selected (data : list item) (dl : item) (f : item -> bool)
    (margin : option number) (k : Q) :
  Num.add (itemHeight config) (itemMargin config) = Fin k -> 0 < k ->
  (2 <= length data)%nat ->
  data !! (length data - 1)%nat = Some dl ->
  f (set_index (length data - 1) dl) = true ->
  scaleY (zoomToElements config data (Some f) margin).2 = Num.one.
Proof.
  intros Hk Hk0 Hlen Hdl Hf.
  rewrite zoomToElements_unfold. cbv zeta. cbn [snd scaleY].
  destruct (max_y_finite config k data Hk) as [qM HM].
  { intros ->. simpl in Hlen. lia. }
  pose proof (max_y_positive config k data qM Hk Hk0 Hlen HM) as HqM.
  pose proof (max_y_is_last k data qM Hk Hk0 HM) as HqM'.
  assert (set_index (length data - 1) dl ∈ List.filter f (storeIndex data)) as Hin.
  { apply list_elem_of_In, filter_In. split; [|done].
    by apply list_elem_of_In, storeIndex_lookup. }
  destruct (Math_max_finite
              (map (getYCoordinate config) (List.filter f (storeIndex data))))
    as [qf Hqf].
  { intros E. apply map_eq_nil_inv in E. rewrite E in Hin.
    by apply elem_of_nil in Hin. }
  { by apply (getY_finite config k). }
  assert (qf = qM) as ->.
  { pose proof (Math_max_filter_le _ _ _ _ _ Hqf HM) as Hle.
    assert (Num.le (getYCoordinate config (set_index (length data - 1) dl))
                   (Fin qf) = true) as Hge.
    { apply (Math_max_upper _ _ _ Hqf).
      apply list_elem_of_In, in_map, list_elem_of_In, Hin. }
    rewrite (getY_set_index config k) in Hge by done. apply le_Fin in Hge.
    rewrite <- HqM' in Hge.
    pose proof (Math_max_elem _ _ Hqf) as Hel.
    apply elem_of_map_filter, list_elem_of_In, in_map_iff in Hel as (d & Hd & Hd').
    apply list_elem_of_In, elem_of_storeIndex in Hd' as (i & d0 & _ & ->).
    rewrite (getY_set_index config k) in Hd by done. injection Hd as Hd.
    rewrite HqM', <- Hd. apply Qred_complete.
    rewrite <- (Qred_correct (inject_Z (Z.of_nat i) * k)), Hd.
    rewrite <- (Qred_correct (inject_Z (Z.of_nat (length data - 1)) * k)), <- HqM'.
    by apply Qle_antisym. }
  rewrite Hqf, HM, fitAxis_same. apply div_self. lra.
Qed.

End ZoomMore.

(** ** Class names *)

Section ClassNames.

Lemma toLowerCase1_not_upper (a : ascii) : Case.isUpper (Case.toLowerCase1 a) = false.
Proof. destruct a as [[] [] [] [] [] [] [] []]; reflexivity. Qed.

Lemma toLowerCase1_twice (a : ascii) :
  Case.toLowerCase1 (Case.toLowerCase1 a) = Case.toLowerCase1 a.
Proof. destruct a as [[] [] [] [] [] [] [] []]; reflexivity. Qed.

Lemma toLowerCase1_hyphen (a : ascii) :
  Ascii.eqb (Case.toLowerCase1 a) "-" = Ascii.eqb a "-".
Proof. destruct a as [[] [] [] [] [] [] [] []]; reflexivity. Qed.

Lemma toLowerCase_twice (s : string) :
  Case.toLowerCase (Case.toLowerCase s) = Case.toLowerCase s.
Proof.
  induction s as [|a s IH]; [done|]. simpl. by rewrite toLowerCase1_twice, IH.
Qed.

Lemma toLowerCase_chars (s : string) (a : ascii) :
  In a (String.list_ascii_of_string (Case.toLowerCase s)) -> Case.isUpper a = false.
Proof.
  induction s as [|b s IH]; [done|]. simpl.
  intros [<-|H]; [apply toLowerCase1_not_upper | by apply IH].
Qed.

(** Nothing is replaced in a string without capital letters. *)
Lemma hyphenate_no_upper (s : string) :
  (forall a, In a (String.list_ascii_of_string s) -> Case.isUpper a = false) ->
  Case.hyphenate s = s.
Proof.
  assert (forall s,
            ((forall a, In a (String.list_ascii_of_string s) -> Case.isUpper a = false) ->
             Case.hyphenate s = s) /\
            (forall b,
               (forall a, In a (String.list_ascii_of_string (String b s)) ->
                          Case.isUpper a = false) ->
               Case.hyphenate (String b s) = String b s)) as H.
  { clear s. induction s as [|c s [IH1 IH2]].
    - split; [done|]. done.
    - split.
      + intros H. by apply IH2.
      + intros b H. simpl.
        assert (Case.isUpper c = false) as -> by (apply H; simpl; auto).
        rewrite andb_false_r. f_equal. apply IH2.
        intros a Ha. apply H. by right. }
  apply H.
Qed.

Lemma hyphenate_pair (a b : ascii) (rest : string) :
  Case.hyphenate (String a (String b rest))
  = if Case.isLower a && Case.isUpper b
    then String a (String "-" (String b (Case.hyphenate rest)))
    else String a (Case.hyphenate (String b rest)).
Proof. reflexivity. Qed.

Lemma hyphenate_hyphens (s : string) :
  List.filter (fun a => negb (Ascii.eqb a "-"))
              (String.list_ascii_of_string (Case.hyphenate s))
  = List.filter (fun a => negb (Ascii.eqb a "-")) (String.list_ascii_of_string s).
Proof.
  assert (forall s,
            List.filter (fun a => negb (Ascii.eqb a "-"))
                        (String.list_ascii_of_string (Case.hyphenate s))
            = List.filter (fun a => negb (Ascii.eqb a "-"))
                          (String.list_ascii_of_string s) /\
            forall b,
              List.filter (fun a => negb (Ascii.eqb a "-"))
                          (String.list_ascii_of_string (Case.hyphenate (String b s)))
              = List.filter (fun a => negb (Ascii.eqb a "-"))
                            (String.list_ascii_of_string (String b s))) as H.
  { clear s. induction s as [|c s [IH1 IH2]].
    - split; [done|]. done.
    - split; [apply IH2|]. intros b. rewrite hyphenate_pair.
      destruct (Case.isLower b && Case.isUpper c).
      + cbn [String.list_ascii_of_string List.filter].
        change (negb (Ascii.eqb "-" "-")) with false. cbv iota.
        by rewrite IH1.
      + cbn [String.list_ascii_of_string List.filter].
        specialize (IH2 c). cbn [String.list_ascii_of_string] in IH2.
        by rewrite IH2. }
  apply H.
Qed.

Lemma toLowerCase_hyphens (s : string) :
  List.filter (fun a => negb (Ascii.eqb a "-"))
              (String.list_ascii_of_string (Case.toLowerCase s))
  = map Case.toLowerCase1
        (List.filter (fun a => negb (Ascii.eqb a "-")) (String.list_ascii_of_string s)).
Proof.
  induction s as [|a s IH]; [done|]. simpl.
  rewrite toLowerCase1_hyphen. destruct (Ascii.eqb a "-"); simpl; by rewrite IH.
Qed.

(** X14.  A class name holds no capital letter from [A] to [Z], and the
    class name of a class name is the class name itself. *)
Theorem toClassName_twice (state : string) :
  (forall a, In a (String.list_ascii_of_string (toClassName state)) ->
             Case.isUpper a = false) /\
  toClassName (toClassName state) = toClassName state.
Proof.
  split; [apply toLowerCase_chars|].
  unfold toClassName at 1.
  rewrite hyphenate_no_upper by apply toLowerCase_chars.
  apply toLowerCase_twice.
Qed.

(** X15.  All that the class name adds are hyphens: with the hyphens
    taken out, it is the state in lower case with its hyphens taken
    out. *)
Theorem toClassName_adds_hyphens (state : string) :
  List.filter (fun a => negb (Ascii.eqb a "-"))
              (String.list_ascii_of_string (toClassName state))
  = map Case.toLowerCase1
        (List.filter (fun a => negb (Ascii.eqb a "-"))
                     (String.list_ascii_of_string state)).
Proof.
  unfold toClassName. by rewrite toLowerCase_hyphens, hyphenate_hyphens.
Qed.

End ClassNames.

(** ** Slide states *)

Section SlideFacts.

Context {rule : Type} (config : Config rule).
Variable classNames : string -> gset string.

Import Slides.


Lemma zoomHandler_classes filter margin c :
  classes (zoomHandler config filter margin c) = classes c.
Proof. reflexivity. Qed.

Lemma zoomHandler_bars filter margin c :
  storeIndex (bars (zoomHandler config filter margin c)) = storeIndex (bars c).
Proof.
  unfold zoomHandler. cbn [bars]. rewrite zoomToElements_unfold. cbv zeta.
  cbn [fst]. apply storeIndex_twice.
Qed.






(** X18.  When the slide shown has no state, no handler runs: the bars
    and the zoom stay as the state left had them. *)
Theorem leaving_for_no_state_keeps_the_zoom (st : StateTransitions)
    (previousState currentState : option string) (c : Chart) :
  given currentState = false ->
  let c' := handleStateChange classNames st previousState currentState c in
  bars c' = bars c /\ transform c' = transform c.
Proof.
  intros Hg c'. subst c'. unfold handleStateChange.
  destruct (decide _); [done|]. rewrite Hg.
  destruct previousState as [p|], currentState as [s|];
    try destruct (given (Some p)); done.
Qed.

End SlideFacts.

(** ** Drawing *)

Section DrawFacts.

Context {rule : Type} (config : Config rule).

Import Draw.

Local Open Scope Q_scope.

Lemma draw_rects (data : list item) (svg : Svg) :
  draw config data = Some svg -> rects svg = imap (bar config) data.
Proof.
  unfold draw. destruct (last data); [|done]. by intros [= <-].
Qed.

(** X19.  Drawing fails on an empty array and on no other; it draws one
    bar for each item, and no two bars have the same [id]. *)
Theorem draw_bars_have_their_own_id (data : list item) :
  (draw config data = None <-> data = []) /\
  (forall svg, draw config data = Some svg ->
     length (rects svg) = length data /\
     forall i j r r', rects svg !! i = Some r -> rects svg !! j = Some r' ->
                      rect_id r = rect_id r' -> i = j).
Proof.
  split.
  - unfold draw. split.
    + destruct (last data) eqn:E; [done|]. intros _. by apply last_None.
    + by intros ->.
  - intros svg H. rewrite (draw_rects data svg H). split; [apply length_imap|].
    intros i j r r'. rewrite !list_lookup_imap.
    destruct (data !! i) as [d|]; [|done]. destruct (data !! j) as [d'|]; [|done].
    intros [= <-] [= <-] Hid. cbn [rect_id bar] in Hid.
    apply append_inv_head in Hid. by apply (inj pretty).
Qed.


(** X21.  The title of the bar of a normalised item is its abbreviated
    URL, the text that the tooltip shows. *)
Theorem bar_title_is_the_url (config2 : Config Rev2.tagRule) (harData : HarData)
    (items : list item) (svg : Svg) (i : nat) (r : Rect) :
  (Rev2.getRequestsFromHar config2 harData).2 = Some items ->
  draw config items = Some svg -> rects svg !! i = Some r ->
  exists d, items !! i = Some d /\ rect_title r = url d.
Proof.
  intros Hitems Hdraw Hr.
  rewrite (draw_rects items svg Hdraw), list_lookup_imap in Hr.
  destruct (items !! i) as [d|] eqn:Hd; [|done]. injection Hr as <-.
  exists d. split; [done|].
  assert (d ∈ items) as Hin by (by eapply list_elem_of_lookup_2).
  destruct (normalize_item config2 _ _ _ Hitems Hin) as (first & rest & e & _ & _ & ->).
  apply substring_split.
Qed.

End DrawFacts.

(** *** The statements of the last sections on concrete data *)

Section MoreExamples.

Import Sample SampleMore Slides Draw.

Lemma returned_items_start_in_time_witness :
  Num.le (Fin 500) (Fin 2000) = true /\ Fin 500 <> NaN.
Proof.
  apply (returned_items_start_in_time Rev2.config onePage page1 []
           (default [] (Rev2.getRequestsFromHar Rev2.config onePage).2)
           (Rev2.addTags Rev2.config (toItem (page_startedDateTime page1) entry1))).
  - reflexivity.
  - reflexivity.
  - by left.
Defined.

Lemma revisions_agree_on_items_witness :
  exists items2,
    (Rev2.getRequestsFromHar Rev2.config onePage).2 = Some items2 /\
    map url (default [] (Rev1.returned
                           (Rev1.getRequestsFromHar engine Rev1.config onePage)))
    = map url items2.
Proof.
  destruct (revisions_agree_on_items engine Rev1.config Rev2.config onePage
              (default [] (Rev1.returned
                             (Rev1.getRequestsFromHar engine Rev1.config onePage)))
              eq_refl)
    as (items2 & H2 & Hcore & _).
  exists items2. split; [exact H2|].
  apply (f_equal (map (fun t => t.1.1.1.1.1.2))) in Hcore.
  rewrite !map_map in Hcore. exact Hcore.
Defined.

Lemma tags_of_revisions_agree_witness :
  Rev1.getFileTags Rev1.config
    (url (toItem (page_startedDateTime page1) entry2)) !! "mainScript"
  = Some true.
Proof.
  exact (tags_of_revisions_agree Rev1.config
           {| firstPartyWhitelist := [];
              fileTags := Rev2.Pattern <$> fileTags Rev1.config;
              itemHeight := Num.of_Z 10; itemMargin := Num.of_Z 2 |}
           (toItem (page_startedDateTime page1) entry2) "mainScript" eq_refl).
Defined.

Lemma stats_is_first_party_witness :
  exists fp st,
    Some true = Some fp /\ Some false = Some st /\
    st = fp && String.prefix "/stats/" "/a/b" /\ (st = true -> fp = true).
Proof.
  apply (stats_is_first_party engine Rev1.config onePage
           (default [] (Rev1.returned
                          (Rev1.getRequestsFromHar engine Rev1.config onePage)))
           (default (request other 0)
              (head (default [] (Rev1.returned
                                   (Rev1.getRequestsFromHar engine Rev1.config onePage)))))).
  - reflexivity.
  - by left.
Defined.

Lemma whitelist_grows_with_every_call_witness :
  exists d,
    head (default [] (Rev1.returned
                        (Rev1.getRequestsFromHar engine Rev1.config onePage)))
    = Some d /\
    firstPartyWhitelist
      (Rev1.config_after
         (Rev1.getRequestsFromHar engine
            (Rev1.config_after (Rev1.getRequestsFromHar engine Rev1.config onePage))
            (Rev1.harData_after (Rev1.getRequestsFromHar engine Rev1.config onePage))))
    = firstPartyWhitelist Rev1.config ++ [domain d; domain d].
Proof.
  exact (whitelist_grows_with_every_call engine Rev1.config onePage
           (default [] (Rev1.returned
                          (Rev1.getRequestsFromHar engine Rev1.config onePage)))
           eq_refl).
Defined.

Lemma zoom_not_a_number_witness :
  scaleX (zoomToElements Rev2.config
            [request other 10;
             {| tags := None; type := other; originalUrl := ""; url := "";
                domain := ""; path := ""; start := NaN; duration := Num.zero;
                end_ := NaN; firstParty := None; stats := None; index := None |}]
            None None).2 = NaN.
Proof.
  apply (proj2 (zoom_not_a_number Rev2.config _ None None)).
  eexists. split; [right; by left | reflexivity].
Defined.

Lemma zoom_first_item_only_witness :
  scaleY (zoomToElements Rev2.config
            [request script 10; request other 20; request other 15]
            (Some isScript) None).2 = Infinity false.
Proof.
  apply (zoom_first_item_only Rev2.config (request script 10)
           [request other 20; request other 15] isScript None 12%Q 0%Q).
  - reflexivity.
  - reflexivity.
  - discriminate.
  - reflexivity.
  - reflexivity.
  - discriminate.
Defined.

Lemma zoom_last_item_selected_witness :
  scaleY (zoomToElements Rev2.config
            [request other 10; request other 20; request script 15]
            (Some isScript) (Some (Fin (1 # 10)))).2 = Num.one.
Proof.
  apply (zoom_last_item_selected Rev2.config
           [request other 10; request other 20; request script 15]
           (request script 15) isScript (Some (Fin (1 # 10))) 12%Q).
  - reflexivity.
  - reflexivity.
  - simpl. lia.
  - reflexivity.
  - reflexivity.
Defined.




Lemma leaving_for_no_state_keeps_the_zoom_witness :
  let c := handleStateChange oneName (firstRegistrations Rev2.config)
             None (Some "chartHighlightScripts") chart in
  let c' := handleStateChange oneName (firstRegistrations Rev2.config)
              (Some "chartHighlightScripts") None c in
  bars c' = bars c /\ transform c' = transform c.
Proof.
  apply (leaving_for_no_state_keeps_the_zoom oneName (firstRegistrations Rev2.config)
           (Some "chartHighlightScripts") None).
  reflexivity.
Defined.

Lemma draw_bars_have_their_own_id_witness :
  length (rects {| viewBox_width := Fin 15; viewBox_height := Fin 36;
                   rects := imap (bar Rev2.config) threeBars |}) = 3%nat.
Proof.
  exact (proj1 (proj2 (draw_bars_have_their_own_id Rev2.config threeBars) _ eq_refl)).
Defined.


Lemma bar_title_is_the_url_witness :
  exists d,
    default [] (Rev2.getRequestsFromHar Rev2.config onePage).2 !! 0%nat = Some d /\
    "example.com" +:+ "/a/b" = url d.
Proof.
  apply (bar_title_is_the_url Rev2.config Rev2.config onePage
           (default [] (Rev2.getRequestsFromHar Rev2.config onePage).2)
           {| viewBox_width := Fin 1021; viewBox_height := Fin 24;
              rects := imap (bar Rev2.config)
                         (default [] (Rev2.getRequestsFromHar Rev2.config onePage).2) |}
           0
           (bar Rev2.config 0
              (Rev2.addTags Rev2.config (toItem (page_startedDateTime page1) entry1)))).
  - reflexivity.
  - reflexivity.
  - reflexivity.
Defined.

End MoreExamples.
